(** * Callback-backed output streams of bpf-linker's LLVM shims

    A shallow embedding of [src/cpp/pwrite_stream_shim.cpp] and
    [src/cpp/bitcode_ir_stream_shim.cpp]: the two stream classes that forward
    LLVM's output to caller-supplied callbacks, and the three [extern "C"]
    entry points built on them.

    The caller's sink (everything reachable through [void* user]) is a value
    of an arbitrary type [Sink]; a callback is a function from the sink to a
    status and a new sink; a null function pointer is [None].  Every callback
    invocation is recorded, with its status, in a chronological trace kept
    next to the sink, so that "no callback is invoked" is the statement that
    the trace did not grow. *)

From Stdlib Require Import String.
From Stdlib Require Import Init.Byte.
From Stdlib Require Import ZArith List Bool Lia.
Import ListNotations.

Local Open Scope Z_scope.

(** ** Callbacks, events and the caller's world *)

Module Cb.

(** [uint64_t] arithmetic: [pos_ += Size] wraps. *)
Definition wrap64 (z : Z) : Z := z mod 2 ^ 64.

(** One callback invocation, with the status it returned. *)
Inductive Event : Type :=
| EvWrite (data : list byte) (rc : Z)
| EvPwrite (data : list byte) (offset : Z) (rc : Z)
| EvSeek (offset : Z) (rc : Z)
| EvFlush (rc : Z).

Definition is_write (e : Event) : bool :=
  match e with EvWrite _ _ => true | _ => false end.
Definition is_pwrite (e : Event) : bool :=
  match e with EvPwrite _ _ _ => true | _ => false end.
Definition is_seek (e : Event) : bool :=
  match e with EvSeek _ _ => true | _ => false end.
Definition is_flush (e : Event) : bool :=
  match e with EvFlush _ => true | _ => false end.

(** The status a recorded invocation returned. *)
Definition status (e : Event) : Z :=
  match e with
  | EvWrite _ rc | EvPwrite _ _ rc | EvSeek _ rc | EvFlush rc => rc
  end.

(** A write or offset-write invocation that returned non-zero. *)
Definition failed_write (e : Event) : bool :=
  (is_write e || is_pwrite e) && negb (status e =? 0).

Section WithSink.
Variable Sink : Type.

(** The four function-pointer types [rust_write_cb], [rust_pwrite_cb],
    [rust_seek_cb] and [rust_flush_cb], each returning an [int] status;
    the list [data] carries both [data] and [len]. *)
Definition rust_write_cb : Type := list byte -> Sink -> Z * Sink.
Definition rust_pwrite_cb : Type := list byte -> Z -> Sink -> Z * Sink.
Definition rust_seek_cb : Type := Z -> Sink -> Z * Sink.
Definition rust_flush_cb : Type := Sink -> Z * Sink.

Record World : Type := mkWorld { sink : Sink; trace : list Event }.

Definition call_write (cb : rust_write_cb) (data : list byte) (w : World)
  : Z * World :=
  let (rc, k) := cb data (sink w) in
  (rc, mkWorld k (trace w ++ [EvWrite data rc])).

Definition call_pwrite (cb : rust_pwrite_cb) (data : list byte)
           (offset : Z) (w : World) : Z * World :=
  let (rc, k) := cb data offset (sink w) in
  (rc, mkWorld k (trace w ++ [EvPwrite data offset rc])).

Definition call_seek (cb : rust_seek_cb) (offset : Z) (w : World)
  : Z * World :=
  let (rc, k) := cb offset (sink w) in
  (rc, mkWorld k (trace w ++ [EvSeek offset rc])).

Definition call_flush (cb : rust_flush_cb) (w : World) : Z * World :=
  let (rc, k) := cb (sink w) in
  (rc, mkWorld k (trace w ++ [EvFlush rc])).

(** The invocations made between two worlds of one run. *)
Definition events_since (w w' : World) : list Event :=
  skipn (length (trace w)) (trace w').

End WithSink.

Arguments mkWorld {Sink} _ _.
Arguments sink {Sink} _.
Arguments trace {Sink} _.
Arguments call_write {Sink} _ _ _.
Arguments call_pwrite {Sink} _ _ _ _.
Arguments call_seek {Sink} _ _ _.
Arguments call_flush {Sink} _ _.
Arguments events_since {Sink} _ _.

End Cb.

Import Cb.

(** ** [pwrite_stream_shim.cpp] *)

Module PwriteShim.

Section WithSink.
Variable Sink : Type.

(** [class RustPwriteStream]: the four callbacks, the append position
    and the latch ([user_] is the sink of the world). *)
Record RustPwriteStream : Type := mkStream {
  write_cb_ : option (rust_write_cb Sink);
  pwrite_cb_ : option (rust_pwrite_cb Sink);
  seek_cb_ : option (rust_seek_cb Sink);
  flush_cb_ : option (rust_flush_cb Sink);
  pos_ : Z;
  had_error_ : bool
}.

(** The constructor: [pos_{0}], [had_error_{false}]. *)
Definition new (wcb : option (rust_write_cb Sink))
           (pwcb : option (rust_pwrite_cb Sink))
           (scb : option (rust_seek_cb Sink))
           (fcb : option (rust_flush_cb Sink)) : RustPwriteStream :=
  mkStream wcb pwcb scb fcb 0 false.

Definition set_pos (s : RustPwriteStream) (p : Z) : RustPwriteStream :=
  mkStream (write_cb_ s) (pwrite_cb_ s) (seek_cb_ s) (flush_cb_ s)
           p (had_error_ s).

Definition set_error (s : RustPwriteStream) : RustPwriteStream :=
  mkStream (write_cb_ s) (pwrite_cb_ s) (seek_cb_ s) (flush_cb_ s)
           (pos_ s) true.

Definition had_error (s : RustPwriteStream) : bool := had_error_ s.

Definition current_pos (s : RustPwriteStream) : Z := pos_ s.

(** [~RustPwriteStream()]. *)
Definition destroy (s : RustPwriteStream) (w : World Sink)
  : RustPwriteStream * World Sink :=
  if negb (had_error_ s) then
    match flush_cb_ s with
    | Some cb =>
        let (rc, w') := call_flush cb w in
        if negb (rc =? 0) then (set_error s, w') else (s, w')
    | None => (s, w)
    end
  else (s, w).

(** [bool seek_append_pos(uint64_t new_pos)]. *)
Definition seek_append_pos (new_pos : Z) (s : RustPwriteStream)
           (w : World Sink) : bool * RustPwriteStream * World Sink :=
  let s := set_pos s new_pos in
  match seek_cb_ s with
  | Some cb =>
      let (rc, w') := call_seek cb new_pos w in
      (rc =? 0, s, w')
  | None => (true, s, w)
  end.

(** [void write_impl(const char* Ptr, size_t Size)]; [Size] is the
    length of [Ptr]. *)
Definition write_impl (Ptr : list byte) (s : RustPwriteStream)
           (w : World Sink) : RustPwriteStream * World Sink :=
  let Size := Z.of_nat (length Ptr) in
  if had_error_ s || (Size =? 0) then (s, w)
  else
    match write_cb_ s with
    | None => (set_error s, w)
    | Some cb =>
        let (rc, w') := call_write cb Ptr w in
        if negb (rc =? 0) then (set_error s, w')
        else (set_pos s (wrap64 (pos_ s + Size)), w')
    end.

(** [void pwrite_impl(const char* Ptr, size_t Size, uint64_t Offset)]. *)
Definition pwrite_impl (Ptr : list byte) (Offset : Z)
           (s : RustPwriteStream) (w : World Sink)
  : RustPwriteStream * World Sink :=
  let Size := Z.of_nat (length Ptr) in
  if had_error_ s || (Size =? 0) then (s, w)
  else
    match pwrite_cb_ s with
    | None => (set_error s, w)
    | Some cb =>
        let (rc, w') := call_pwrite cb Ptr Offset w in
        if negb (rc =? 0) then (set_error s, w') else (s, w')
    end.

(** [llvm::raw_ostream::flush()] of the base class empties LLVM's own
    buffer through [write_impl].  The constructor calls [SetUnbuffered()],
    so nothing is ever pending: the call changes nothing and reaches no
    callback (the entry point's own comment: "no-op with SetUnbuffered").
    [flush_cb_] is only called by the destructor. *)
Definition flush (s : RustPwriteStream) (w : World Sink)
  : RustPwriteStream * World Sink := (s, w).

(** What LLVM code holding a [raw_pwrite_stream&] can do with it: append
    ([write], forwarded at once to [write_impl] on an unbuffered stream),
    overwrite at an offset ([pwrite] to [pwrite_impl]), ask for the
    position ([tell], which is [current_pos()] when nothing is buffered),
    and finally return.  [write_impl] and [pwrite_impl] return [void]: the
    position is all such code can observe. *)
Inductive pwrite_prog (R : Type) : Type :=
| PRet (r : R)
| PWrite (data : list byte) (k : pwrite_prog R)
| PPwrite (data : list byte) (offset : Z) (k : pwrite_prog R)
| PTell (k : Z -> pwrite_prog R).

Arguments PRet {R} _.
Arguments PWrite {R} _ _.
Arguments PPwrite {R} _ _ _.
Arguments PTell {R} _.

Fixpoint run_prog {R : Type} (p : pwrite_prog R) (s : RustPwriteStream)
         (w : World Sink) : R * RustPwriteStream * World Sink :=
  match p with
  | PRet r => (r, s, w)
  | PWrite data k =>
      let (s', w') := write_impl data s w in run_prog k s' w'
  | PPwrite data offset k =>
      let (s', w') := pwrite_impl data offset s w in run_prog k s' w'
  | PTell k => run_prog (k (current_pos s)) s w
  end.

End WithSink.

Arguments mkStream {Sink} _ _ _ _ _ _.
Arguments write_cb_ {Sink} _.
Arguments pwrite_cb_ {Sink} _.
Arguments seek_cb_ {Sink} _.
Arguments flush_cb_ {Sink} _.
Arguments pos_ {Sink} _.
Arguments had_error_ {Sink} _.
Arguments new {Sink} _ _ _ _.
Arguments set_pos {Sink} _ _.
Arguments set_error {Sink} _.
Arguments had_error {Sink} _.
Arguments current_pos {Sink} _.
Arguments destroy {Sink} _ _.
Arguments seek_append_pos {Sink} _ _ _.
Arguments write_impl {Sink} _ _ _.
Arguments pwrite_impl {Sink} _ _ _ _.
Arguments flush {Sink} _ _.
Arguments PRet {R} _.
Arguments PWrite {R} _ _.
Arguments PPwrite {R} _ _ _.
Arguments PTell {R} _.
Arguments run_prog {Sink R} _ _ _.

(** *** The entry point and its collaborators *)

Section EntryPoint.
Variable Sink : Type.
(** What a module holds besides its data layout. *)
Variable IR : Type.
(** [std::malloc]: whether a request for that many bytes is served. *)
Variable malloc : nat -> bool.

(** [llvm::Module], as far as the entry point touches it. *)
Record Module : Type := mkModule { data_layout : string; ir : IR }.

Definition setDataLayout (m : Module) (dl : string) : Module :=
  mkModule dl (ir m).

Inductive CodeGenFileType : Type := AssemblyFile | ObjectFile.

(** [llvm::TargetMachine] and the pass pipeline it builds.
    [addPassesToEmitFile] receives the stream and answers [true] when the
    file type cannot be emitted; [run_passes] is [pass.run( *Mod)] of the
    pipeline built for that file type, which receives the module by
    reference and writes to the stream. *)
Record TargetMachine : Type := mkTargetMachine {
  createDataLayout : string;
  addPassesToEmitFile : CodeGenFileType -> pwrite_prog bool;
  run_passes : CodeGenFileType -> Module -> pwrite_prog Module
}.

(** [LLVMCodeGenFileType] of llvm-c: a C enum whose first enumerator is
    [LLVMAssemblyFile]. *)
Definition LLVMAssemblyFile : Z := 0.
Definition LLVMObjectFile : Z := 1.

(** [static char* dup_cstr(const char* s)]: [nullptr] for a null
    argument or when [malloc(n + 1)] fails. *)
Definition dup_cstr (s : option string) : option string :=
  match s with
  | None => None
  | Some str =>
      let n := String.length str in
      if negb (malloc (n + 1)) then None else Some str
  end.

(** [if (error_message) *error_message = v;] on the caller's slot:
    [None] is a null [char**], [Some c] a slot holding [c]. *)
Definition store_message (error_message : option (option string))
           (v : option string) : option (option string) :=
  match error_message with
  | Some _ => Some v
  | None => None
  end.

Definition msg_invalid : string :=
  "invalid arguments: TM/Mod/write_cb/pwrite_cb must be non-null".
Definition msg_cannot_emit : string :=
  "TargetMachine can't emit a file of this type".
Definition msg_sink : string :=
  "error while writing to Rust pwrite stream".

(** What the caller has after the call: the returned [int], the message
    slot, the module, the sink with the callback trace, and (for the
    proofs) the stream object as its destructor left it, [None] when no
    stream was constructed. *)
Record EmitResult : Type := mkEmitResult {
  em_ret : Z;
  em_message : option (option string);
  em_module : option Module;
  em_stream : option (RustPwriteStream Sink);
  em_world : World Sink
}.

(** [int bpf_linker_emit_to_pwrite_stream(...)].  The local [os] is
    destroyed at each [return] after the returned value is fixed. *)
Definition bpf_linker_emit_to_pwrite_stream
           (T : option TargetMachine) (M : option Module) (codegen : Z)
           (write_cb : option (rust_write_cb Sink))
           (pwrite_cb : option (rust_pwrite_cb Sink))
           (seek_cb : option (rust_seek_cb Sink))
           (flush_cb : option (rust_flush_cb Sink))
           (error_message : option (option string))
           (w : World Sink) : EmitResult :=
  let error_message := store_message error_message None in
  match T, M, write_cb, pwrite_cb with
  | Some TM, Some Mod, Some _, Some _ =>
      let os := new write_cb pwrite_cb seek_cb flush_cb in
      let Mod := setDataLayout Mod (createDataLayout TM) in
      let ft := if codegen =? LLVMAssemblyFile then AssemblyFile
                else ObjectFile in
      let '(refused, os, w) := run_prog (addPassesToEmitFile TM ft) os w in
      if refused : bool then
        let error_message :=
          store_message error_message (dup_cstr (Some msg_cannot_emit)) in
        let (os, w) := destroy os w in
        mkEmitResult 1 error_message (Some Mod) (Some os) w
      else
        let '(Mod, os, w) := run_prog (run_passes TM ft Mod) os w in
        let (os, w) := flush os w in
        if had_error os then
          let error_message :=
            store_message error_message (dup_cstr (Some msg_sink)) in
          let (os, w) := destroy os w in
          mkEmitResult 1 error_message (Some Mod) (Some os) w
        else
          let (os, w) := destroy os w in
          mkEmitResult 0 error_message (Some Mod) (Some os) w
  | _, _, _, _ =>
      let error_message :=
        store_message error_message (dup_cstr (Some msg_invalid)) in
      mkEmitResult 1 error_message M None w
  end.

End EntryPoint.

Arguments mkModule {IR} _ _.
Arguments data_layout {IR} _.
Arguments ir {IR} _.
Arguments setDataLayout {IR} _ _.
Arguments mkTargetMachine {IR} _ _ _.
Arguments createDataLayout {IR} _.
Arguments addPassesToEmitFile {IR} _ _.
Arguments run_passes {IR} _ _ _.
Arguments store_message _ _ : clear implicits.
Arguments mkEmitResult {Sink IR} _ _ _ _ _.
Arguments em_ret {Sink IR} _.
Arguments em_message {Sink IR} _.
Arguments em_module {Sink IR} _.
Arguments em_stream {Sink IR} _.
Arguments em_world {Sink IR} _.
Arguments bpf_linker_emit_to_pwrite_stream {Sink IR} _ _ _ _ _ _ _ _ _ _.

End PwriteShim.

(** ** [bitcode_ir_stream_shim.cpp] *)

Module BitcodeShim.

Section WithSink.
Variable Sink : Type.

(** [class RustRawOStream]: forward-only, no offset-write. *)
Record RustRawOStream : Type := mkStream {
  write_cb_ : option (rust_write_cb Sink);
  flush_cb_ : option (rust_flush_cb Sink);
  pos_ : Z;
  had_error_ : bool
}.

Definition new (wcb : option (rust_write_cb Sink))
           (fcb : option (rust_flush_cb Sink)) : RustRawOStream :=
  mkStream wcb fcb 0 false.

Definition set_pos (s : RustRawOStream) (p : Z) : RustRawOStream :=
  mkStream (write_cb_ s) (flush_cb_ s) p (had_error_ s).

Definition set_error (s : RustRawOStream) : RustRawOStream :=
  mkStream (write_cb_ s) (flush_cb_ s) (pos_ s) true.

Definition had_error (s : RustRawOStream) : bool := had_error_ s.

Definition current_pos (s : RustRawOStream) : Z := pos_ s.

(** [llvm::raw_ostream::flush()] on a stream made unbuffered by its
    constructor: nothing is pending, nothing happens. *)
Definition flush (s : RustRawOStream) (w : World Sink)
  : RustRawOStream * World Sink := (s, w).

(** [~RustRawOStream()]: [this->flush()], then the sink's flush. *)
Definition destroy (s : RustRawOStream) (w : World Sink)
  : RustRawOStream * World Sink :=
  let (s, w) := flush s w in
  if negb (had_error_ s) then
    match flush_cb_ s with
    | Some cb =>
        let (rc, w') := call_flush cb w in
        if negb (rc =? 0) then (set_error s, w') else (s, w')
    | None => (s, w)
    end
  else (s, w).

(** [void write_impl(const char *Ptr, size_t Size)]. *)
Definition write_impl (Ptr : list byte) (s : RustRawOStream)
           (w : World Sink) : RustRawOStream * World Sink :=
  let Size := Z.of_nat (length Ptr) in
  if had_error_ s || (Size =? 0) then (s, w)
  else
    match write_cb_ s with
    | None => (set_error s, w)
    | Some cb =>
        let (rc, w') := call_write cb Ptr w in
        if negb (rc =? 0) then (set_error s, w')
        else (set_pos s (wrap64 (pos_ s + Size)), w')
    end.

(** What LLVM code holding a [raw_ostream&] can do with it: append, ask
    for the position, return. *)
Inductive ostream_prog : Type :=
| ORet
| OWrite (data : list byte) (k : ostream_prog)
| OTell (k : Z -> ostream_prog).

Fixpoint run_prog (p : ostream_prog) (s : RustRawOStream)
         (w : World Sink) : RustRawOStream * World Sink :=
  match p with
  | ORet => (s, w)
  | OWrite data k =>
      let (s', w') := write_impl data s w in run_prog k s' w'
  | OTell k => run_prog (k (current_pos s)) s w
  end.

End WithSink.

Arguments mkStream {Sink} _ _ _ _.
Arguments write_cb_ {Sink} _.
Arguments flush_cb_ {Sink} _.
Arguments pos_ {Sink} _.
Arguments had_error_ {Sink} _.
Arguments new {Sink} _ _.
Arguments set_pos {Sink} _ _.
Arguments set_error {Sink} _.
Arguments had_error {Sink} _.
Arguments current_pos {Sink} _.
Arguments flush {Sink} _ _.
Arguments destroy {Sink} _ _.
Arguments write_impl {Sink} _ _ _.
Arguments run_prog {Sink} _ _ _.

(** *** The two entry points *)

Section EntryPoints.
Variable Sink : Type.
(** [llvm::Module]; both entry points only read it. *)
Variable Module : Type.
(** [llvm::WriteBitcodeToFile] and [llvm::Module::print]: what each
    writes to the stream it is given. *)
Variable WriteBitcodeToFile : Module -> ostream_prog.
Variable Module_print : Module -> ostream_prog.

(** The returned [int], the sink with its trace, and the stream object
    as its destructor left it ([None]: none was constructed).  In both
    entry points the returned value is fixed before [os] is destroyed. *)
Record StreamResult : Type := mkStreamResult {
  sr_ret : Z;
  sr_stream : option (RustRawOStream Sink);
  sr_world : World Sink
}.

(** [int bpf_linker_write_bitcode_to_stream(...)]. *)
Definition bpf_linker_write_bitcode_to_stream
           (M : option Module)
           (write_cb : option (rust_write_cb Sink))
           (flush_cb : option (rust_flush_cb Sink))
           (w : World Sink) : StreamResult :=
  match M, write_cb with
  | Some Mod, Some _ =>
      let os := new write_cb flush_cb in
      let (os, w) := run_prog (WriteBitcodeToFile Mod) os w in
      let (os, w) := flush os w in
      let r := if had_error os then 1 else 0 in
      let (os, w) := destroy os w in
      mkStreamResult r (Some os) w
  | _, _ => mkStreamResult 1 None w
  end.

(** [int bpf_linker_print_ir_to_stream(...)]. *)
Definition bpf_linker_print_ir_to_stream
           (M : option Module)
           (write_cb : option (rust_write_cb Sink))
           (flush_cb : option (rust_flush_cb Sink))
           (w : World Sink) : StreamResult :=
  match M, write_cb with
  | Some Mod, Some _ =>
      let os := new write_cb flush_cb in
      let (os, w) := run_prog (Module_print Mod) os w in
      let (os, w) := flush os w in
      let r := if had_error os then 1 else 0 in
      let (os, w) := destroy os w in
      mkStreamResult r (Some os) w
  | _, _ => mkStreamResult 1 None w
  end.

End EntryPoints.

Arguments mkStreamResult {Sink} _ _ _.
Arguments sr_ret {Sink} _.
Arguments sr_stream {Sink} _.
Arguments sr_world {Sink} _.
Arguments bpf_linker_write_bitcode_to_stream {Sink Module} _ _ _ _ _.
Arguments bpf_linker_print_ir_to_stream {Sink Module} _ _ _ _ _.

End BitcodeShim.

(** ** Sequences of calls on one stream object *)

Module Ops.

(** One call on a [RustPwriteStream]: a forward write, an offset-write or
    an explicit repositioning. *)
Inductive StreamOp : Type :=
| OpWrite (data : list byte)
| OpPwrite (data : list byte) (offset : Z)
| OpSeek (offset : Z).

Definition is_seek_op (o : StreamOp) : bool :=
  match o with OpSeek _ => true | _ => false end.

Definition seek_free (ops : list StreamOp) : bool :=
  forallb (fun o => negb (is_seek_op o)) ops.

Definition seek_ops (ops : list StreamOp) : nat :=
  length (filter is_seek_op ops).

(** Bytes a forward write asks to append; offset-writes ask for none. *)
Definition appended (o : StreamOp) : Z :=
  match o with
  | OpWrite data => Z.of_nat (length data)
  | _ => 0
  end.

Definition total_appended (ops : list StreamOp) : Z :=
  fold_right (fun o acc => appended o + acc) 0 ops.

Definition run_op {Sink : Type} (o : StreamOp)
           (s : PwriteShim.RustPwriteStream Sink) (w : World Sink)
  : PwriteShim.RustPwriteStream Sink * World Sink :=
  match o with
  | OpWrite data => PwriteShim.write_impl data s w
  | OpPwrite data offset => PwriteShim.pwrite_impl data offset s w
  | OpSeek offset =>
      let '(_, s', w') := PwriteShim.seek_append_pos offset s w in (s', w')
  end.

Fixpoint run_ops {Sink : Type} (ops : list StreamOp)
         (s : PwriteShim.RustPwriteStream Sink) (w : World Sink)
  : PwriteShim.RustPwriteStream Sink * World Sink :=
  match ops with
  | [] => (s, w)
  | o :: rest => let (s', w') := run_op o s w in run_ops rest s' w'
  end.

(** Forward writes on a [RustRawOStream], one after the other. *)
Fixpoint run_writes {Sink : Type} (datas : list (list byte))
         (s : BitcodeShim.RustRawOStream Sink) (w : World Sink)
  : BitcodeShim.RustRawOStream Sink * World Sink :=
  match datas with
  | [] => (s, w)
  | d :: rest =>
      let (s', w') := BitcodeShim.write_impl d s w in run_writes rest s' w'
  end.

End Ops.

(** ** Reading a trace *)

Module Shape.

Definition is_wp (e : Event) : bool := is_write e || is_pwrite e.

Definition failed (e : Event) : bool := negb (status e =? 0).

(** Bytes the sink accepted through forward writes. *)
Definition accepted (e : Event) : Z :=
  match e with
  | EvWrite data rc => if rc =? 0 then Z.of_nat (length data) else 0
  | _ => 0
  end.

Definition written (evs : list Event) : Z :=
  fold_right (fun e acc => accepted e + acc) 0 evs.

Definition flushes (evs : list Event) : nat :=
  length (filter is_flush evs).

(** The events of the writing phase of a stream whose mandatory callbacks
    are present: only writes and offset-writes, a failed one can only be
    the last, the latch tells whether one failed, and the position counts
    the accepted bytes. *)
Definition writing_phase (latch : bool) (pos : Z) (evs : list Event)
  : Prop :=
  forallb is_wp evs = true /\
  existsb failed_write (removelast evs) = false /\
  latch = existsb failed_write evs /\
  pos = wrap64 (written evs).

Section WithSink.
Variable Sink : Type.

Definition pwrite_inv (s : PwriteShim.RustPwriteStream Sink)
           (evs : list Event) : Prop :=
  PwriteShim.write_cb_ s <> None /\
  PwriteShim.pwrite_cb_ s <> None /\
  writing_phase (PwriteShim.had_error_ s) (PwriteShim.pos_ s) evs.

Definition raw_inv (s : BitcodeShim.RustRawOStream Sink)
           (evs : list Event) : Prop :=
  BitcodeShim.write_cb_ s <> None /\
  forallb is_write evs = true /\
  writing_phase (BitcodeShim.had_error_ s) (BitcodeShim.pos_ s) evs.

(** The function pointers a stream was constructed with. *)
Definition callbacks (s : PwriteShim.RustPwriteStream Sink) :=
  (PwriteShim.write_cb_ s, PwriteShim.pwrite_cb_ s,
   PwriteShim.seek_cb_ s, PwriteShim.flush_cb_ s).

Definition raw_callbacks (s : BitcodeShim.RustRawOStream Sink) :=
  (BitcodeShim.write_cb_ s, BitcodeShim.flush_cb_ s).

(** What the destructor adds to the trace. *)
Definition teardown (latch : bool) (fcb : option (rust_flush_cb Sink))
           (w : World Sink) : list Event :=
  if latch then []
  else match fcb with
       | Some cb => [EvFlush (fst (cb (sink w)))]
       | None => []
       end.

(** The file type the entry point selects, and whether the target
    machine refuses it when asked on a fresh stream. *)
Definition file_type (codegen : Z) : PwriteShim.CodeGenFileType :=
  if codegen =? PwriteShim.LLVMAssemblyFile
  then PwriteShim.AssemblyFile else PwriteShim.ObjectFile.

Definition setup {IR : Type} (tm : PwriteShim.TargetMachine IR)
           (codegen : Z)
           (wcb : option (rust_write_cb Sink))
           (pwcb : option (rust_pwrite_cb Sink))
           (scb : option (rust_seek_cb Sink))
           (fcb : option (rust_flush_cb Sink))
           (w : World Sink)
  : bool * PwriteShim.RustPwriteStream Sink * World Sink :=
  PwriteShim.run_prog
    (PwriteShim.addPassesToEmitFile tm (file_type codegen))
    (PwriteShim.new wcb pwcb scb fcb) w.

Definition backend_refuses {IR : Type} (tm : PwriteShim.TargetMachine IR)
           (codegen : Z)
           (wcb : option (rust_write_cb Sink))
           (pwcb : option (rust_pwrite_cb Sink))
           (scb : option (rust_seek_cb Sink))
           (fcb : option (rust_flush_cb Sink))
           (w : World Sink) : bool :=
  fst (fst (setup tm codegen wcb pwcb scb fcb w)).

(** The module the pipeline leaves behind, given the one it is run on
    and the stream and world it starts from. *)
Definition module_after {IR : Type} (tm : PwriteShim.TargetMachine IR)
           (codegen : Z) (m : PwriteShim.Module IR)
           (st : bool * PwriteShim.RustPwriteStream Sink * World Sink)
  : PwriteShim.Module IR :=
  if fst (fst st) then m
  else fst (fst (PwriteShim.run_prog
                   (PwriteShim.run_passes tm (file_type codegen) m)
                   (snd (fst st)) (snd st))).

(** A mandatory argument of the random-access entry point is null. *)
Definition pwrite_args_missing {IR : Type}
           (T : option (PwriteShim.TargetMachine IR))
           (M : option (PwriteShim.Module IR))
           (wcb : option (rust_write_cb Sink))
           (pwcb : option (rust_pwrite_cb Sink)) : bool :=
  match T, M, wcb, pwcb with
  | Some _, Some _, Some _, Some _ => false
  | _, _, _, _ => true
  end.

(** A mandatory argument of an append-only entry point is null. *)
Definition append_args_missing {Module : Type} (M : option Module)
           (wcb : option (rust_write_cb Sink)) : bool :=
  match M, wcb with
  | Some _, Some _ => false
  | _, _ => true
  end.

End WithSink.

Arguments pwrite_inv {Sink} _ _.
Arguments callbacks {Sink} _.
Arguments raw_callbacks {Sink} _.
Arguments raw_inv {Sink} _ _.
Arguments teardown {Sink} _ _ _.
Arguments setup {Sink IR} _ _ _ _ _ _ _.
Arguments backend_refuses {Sink IR} _ _ _ _ _ _ _.
Arguments module_after {Sink IR} _ _ _ _.

(** Every value a program can return satisfies [P]. *)
Fixpoint returns {R : Type} (P : R -> Prop) (p : PwriteShim.pwrite_prog R)
  : Prop :=
  match p with
  | PwriteShim.PRet r => P r
  | PwriteShim.PWrite _ k => returns P k
  | PwriteShim.PPwrite _ _ k => returns P k
  | PwriteShim.PTell k => forall pos, returns P (k pos)
  end.
Arguments pwrite_args_missing {Sink IR} _ _ _ _.
Arguments append_args_missing {Sink Module} _ _.

End Shape.

(** ** A concrete sink: a growable byte store with a capacity *)

Module VecSink.

(** The store, the number of bytes it may hold, and the statuses its seek
    and flush callbacks answer with. *)
Record Vec : Type := mkVec {
  bytes : list byte;
  capacity : nat;
  seek_status : Z;
  flush_status : Z
}.

Definition with_bytes (v : Vec) (b : list byte) : Vec :=
  mkVec b (capacity v) (seek_status v) (flush_status v).

(** Append at the end; refuse (status 1) what would not fit. *)
Definition vec_write : rust_write_cb Vec := fun data v =>
  if (length (bytes v) + length data <=? capacity v)%nat
  then (0, with_bytes v (bytes v ++ data))
  else (1, v).

(** Overwrite at an absolute offset, growing and zero-filling the gap. *)
Definition vec_pwrite : rust_pwrite_cb Vec := fun data offset v =>
  let o := Z.to_nat offset in
  let n := length data in
  if (o + n <=? capacity v)%nat then
    let padded := bytes v ++ repeat x00 (o + n - length (bytes v)) in
    (0, with_bytes v (firstn o padded ++ data ++ skipn (o + n) padded))
  else (1, v).

Definition vec_seek : rust_seek_cb Vec := fun _ v => (seek_status v, v).

Definition vec_flush : rust_flush_cb Vec := fun v => (flush_status v, v).

Definition empty (cap : nat) (seek_rc flush_rc : Z) : World Vec :=
  mkWorld (mkVec [] cap seek_rc flush_rc) [].

(** A target machine that emits eight bytes and patches the first four,
    and one that cannot emit the requested file type. *)
Definition layout : string := "e-m:e-p:64:64-i64:64-i128:128-n32:64-S128".

Definition emitting : PwriteShim.TargetMachine unit :=
  PwriteShim.mkTargetMachine layout
    (fun _ => PwriteShim.PRet false)
    (fun _ m =>
       PwriteShim.PWrite [x7f; x45; x4c; x46; x00; x00; x00; x00]
         (PwriteShim.PPwrite [x01; x02; x03; x04] 4 (PwriteShim.PRet m))).

Definition refusing : PwriteShim.TargetMachine unit :=
  PwriteShim.mkTargetMachine layout
    (fun _ => PwriteShim.PRet true)
    (fun _ m => PwriteShim.PRet m).

Definition a_module : PwriteShim.Module unit :=
  PwriteShim.mkModule "" tt.

Definition always_fits : nat -> bool := fun _ => true.

(** What [WriteBitcodeToFile] and [print] write in the examples. *)
Definition bitcode_of (_ : unit) : BitcodeShim.ostream_prog :=
  BitcodeShim.OWrite [x42; x43; xc0; xde] BitcodeShim.ORet.
Definition text_of (_ : unit) : BitcodeShim.ostream_prog :=
  BitcodeShim.OWrite [x3b; x20] (BitcodeShim.OWrite [x0a] BitcodeShim.ORet).

End VecSink.

(** ** What a sequence of calls hands to the sink *)

Module Forward.

Definition has_bytes (data : list byte) : bool :=
  match data with [] => false | _ :: _ => true end.

(** A call that can reach a callback at all: a write or offset-write of at
    least one byte, or a repositioning. *)
Definition has_data (o : Ops.StreamOp) : bool :=
  match o with
  | Ops.OpWrite data => has_bytes data
  | Ops.OpPwrite data _ => has_bytes data
  | Ops.OpSeek _ => true
  end.

Definition forwarded (ops : list Ops.StreamOp) : list Ops.StreamOp :=
  filter has_data ops.

(** The call a recorded callback invocation answers; a flush answers
    none. *)
Definition op_of_event (e : Event) : option Ops.StreamOp :=
  match e with
  | EvWrite data _ => Some (Ops.OpWrite data)
  | EvPwrite data offset _ => Some (Ops.OpPwrite data offset)
  | EvSeek offset _ => Some (Ops.OpSeek offset)
  | EvFlush _ => None
  end.

(** The two stream classes in the same state, as far as they share it. *)
Definition same_state {Sink : Type} (t : BitcodeShim.RustRawOStream Sink)
           (s : PwriteShim.RustPwriteStream Sink) : Prop :=
  BitcodeShim.write_cb_ t = PwriteShim.write_cb_ s /\
  BitcodeShim.flush_cb_ t = PwriteShim.flush_cb_ s /\
  BitcodeShim.pos_ t = PwriteShim.pos_ s /\
  BitcodeShim.had_error_ t = PwriteShim.had_error_ s.

End Forward.

Import Shape.

(** * Facts *)

(** ** Traces *)

Section TraceFacts.
Context {Sink : Type}.

Lemma events_since_app (w w' : World Sink) (evs : list Event) :
  trace w' = trace w ++ evs -> events_since w w' = evs.
Proof.
  unfold events_since. intros ->.
  rewrite skipn_app, skipn_all, Nat.sub_diag. reflexivity.
Qed.

Lemma call_write_trace (cb : rust_write_cb Sink) d (w : World Sink) :
  trace (snd (call_write cb d w))
  = trace w ++ [EvWrite d (fst (call_write cb d w))].
Proof. unfold call_write. destruct (cb d (sink w)); reflexivity. Qed.

Lemma call_pwrite_trace (cb : rust_pwrite_cb Sink) d off (w : World Sink) :
  trace (snd (call_pwrite cb d off w))
  = trace w ++ [EvPwrite d off (fst (call_pwrite cb d off w))].
Proof. unfold call_pwrite. destruct (cb d off (sink w)); reflexivity. Qed.

Lemma call_seek_trace (cb : rust_seek_cb Sink) off (w : World Sink) :
  trace (snd (call_seek cb off w))
  = trace w ++ [EvSeek off (fst (call_seek cb off w))].
Proof. unfold call_seek. destruct (cb off (sink w)); reflexivity. Qed.

Lemma call_flush_trace (cb : rust_flush_cb Sink) (w : World Sink) :
  trace (snd (call_flush cb w))
  = trace w ++ [EvFlush (fst (cb (sink w)))].
Proof. unfold call_flush. destruct (cb (sink w)); reflexivity. Qed.

Lemma call_flush_status (cb : rust_flush_cb Sink) (w : World Sink) :
  fst (call_flush cb w) = fst (cb (sink w)).
Proof. unfold call_flush. destruct (cb (sink w)); reflexivity. Qed.

End TraceFacts.

(** ** The writing phase *)

Lemma wrap64_add_l (a b : Z) : wrap64 (wrap64 a + b) = wrap64 (a + b).
Proof. unfold wrap64. apply Zplus_mod_idemp_l. Qed.

Lemma wrap64_small (a : Z) : 0 <= a < 2 ^ 64 -> wrap64 a = a.
Proof. unfold wrap64. apply Z.mod_small. Qed.

Lemma written_app (xs ys : list Event) :
  written (xs ++ ys) = written xs + written ys.
Proof.
  unfold written. induction xs as [|e xs IH]; simpl; [reflexivity|].
  rewrite IH. lia.
Qed.

Lemma writing_phase_nil : writing_phase false 0 [].
Proof. repeat split. Qed.

Lemma writing_phase_pos {latch pos evs} :
  writing_phase latch pos evs -> wrap64 (pos + 0) = pos.
Proof.
  intros (_ & _ & _ & Hpos). rewrite Z.add_0_r, Hpos. unfold wrap64.
  now rewrite Z.mod_mod by lia.
Qed.

(** One more write or offset-write event while the latch is clear. *)
Lemma writing_phase_snoc pos evs e :
  writing_phase false pos evs -> is_wp e = true ->
  writing_phase (failed_write e) (wrap64 (pos + accepted e)) (evs ++ [e]).
Proof.
  intros (Hwp & Hlast & Hlatch & Hpos) He.
  repeat split.
  - rewrite forallb_app, Hwp. simpl. now rewrite He.
  - rewrite removelast_last. now symmetry.
  - rewrite existsb_app, <- Hlatch. simpl. now rewrite orb_false_r.
  - rewrite Hpos, wrap64_add_l, written_app. simpl. f_equal. lia.
Qed.

(** ** [RustPwriteStream] *)

Module PwriteFacts.
Import PwriteShim.

Section WithSink.
Context {Sink : Type}.
Implicit Types (s : RustPwriteStream Sink) (w : World Sink).

Lemma write_impl_latched d s w :
  had_error_ s = true -> write_impl d s w = (s, w).
Proof. unfold write_impl. now intros ->. Qed.

Lemma pwrite_impl_latched d off s w :
  had_error_ s = true -> pwrite_impl d off s w = (s, w).
Proof. unfold pwrite_impl. now intros ->. Qed.

Lemma destroy_latched s w : had_error_ s = true -> destroy s w = (s, w).
Proof. unfold destroy. now intros ->. Qed.

Lemma write_impl_empty s w : write_impl [] s w = (s, w).
Proof. unfold write_impl. simpl. now rewrite orb_true_r. Qed.

Lemma pwrite_impl_empty off s w : pwrite_impl [] off s w = (s, w).
Proof. unfold pwrite_impl. simpl. now rewrite orb_true_r. Qed.

(** An offset-write never moves the append position. *)
Lemma pwrite_impl_pos d off s w :
  current_pos (fst (pwrite_impl d off s w)) = current_pos s.
Proof.
  unfold pwrite_impl.
  destruct (had_error_ s || _); [reflexivity|].
  destruct (pwrite_cb_ s) as [cb|]; [|reflexivity].
  destruct (call_pwrite cb d off w) as [rc w'].
  now destruct (negb (rc =? 0)).
Qed.

Lemma seek_append_pos_latch off s w :
  had_error_ (snd (fst (seek_append_pos off s w))) = had_error_ s.
Proof.
  unfold seek_append_pos. simpl.
  destruct (seek_cb_ s) as [cb|]; [|reflexivity].
  now destruct (call_seek cb off w).
Qed.

Lemma seek_append_pos_callbacks off s w :
  callbacks (snd (fst (seek_append_pos off s w))) = callbacks s.
Proof.
  unfold seek_append_pos. simpl.
  destruct (seek_cb_ s) as [cb|]; [|reflexivity].
  now destruct (call_seek cb off w).
Qed.

(** The call returned at once: no event, same stream. *)
Ltac stay Hw Hp Hphase Herr :=
  exists []; rewrite !app_nil_r; simpl;
  split; [reflexivity | split; [ | reflexivity ]];
  split; [exact Hw | split; [exact Hp | rewrite ?Herr; exact Hphase]].

(** One forward write keeps the writing-phase invariant. *)
Lemma write_impl_step d s w evs :
  pwrite_inv s evs ->
  exists new,
    trace (snd (write_impl d s w)) = trace w ++ new /\
    pwrite_inv (fst (write_impl d s w)) (evs ++ new) /\
    callbacks (fst (write_impl d s w)) = callbacks s.
Proof.
  intros (Hw & Hp & Hphase). unfold write_impl.
  destruct (had_error_ s) eqn:Herr; simpl.
  { stay Hw Hp Hphase Herr. }
  destruct (Z.of_nat (length d) =? 0) eqn:Hsz.
  { stay Hw Hp Hphase Herr. }
  destruct (write_cb_ s) as [cb|] eqn:Hcb; [|congruence].
  pose proof (call_write_trace cb d w) as Htr.
  destruct (call_write cb d w) as [rc w']. simpl in Htr.
  exists [EvWrite d rc]. split.
  { now destruct (negb (rc =? 0)). }
  pose proof (writing_phase_snoc (pos_ s) evs (EvWrite d rc) Hphase
                eq_refl) as Hsn.
  unfold failed_write in Hsn. simpl in Hsn.
  destruct (rc =? 0) eqn:Hrc; simpl in *.
  - split; [split; [simpl; congruence | split; [exact Hp | ]]
           | reflexivity].
    simpl; rewrite ?Herr; exact Hsn.
  - rewrite (writing_phase_pos Hphase) in Hsn.
    split; [split; [simpl; congruence | split; [exact Hp | ]]
           | reflexivity].
    simpl; rewrite ?Herr; exact Hsn.
Qed.

(** One offset-write keeps it too. *)
Lemma pwrite_impl_step d off s w evs :
  pwrite_inv s evs ->
  exists new,
    trace (snd (pwrite_impl d off s w)) = trace w ++ new /\
    pwrite_inv (fst (pwrite_impl d off s w)) (evs ++ new) /\
    callbacks (fst (pwrite_impl d off s w)) = callbacks s.
Proof.
  intros (Hw & Hp & Hphase). unfold pwrite_impl.
  destruct (had_error_ s) eqn:Herr; simpl.
  { stay Hw Hp Hphase Herr. }
  destruct (Z.of_nat (length d) =? 0) eqn:Hsz.
  { stay Hw Hp Hphase Herr. }
  destruct (pwrite_cb_ s) as [cb|] eqn:Hcb; [|congruence].
  pose proof (call_pwrite_trace cb d off w) as Htr.
  destruct (call_pwrite cb d off w) as [rc w']. simpl in Htr.
  exists [EvPwrite d off rc]. split.
  { now destruct (negb (rc =? 0)). }
  pose proof (writing_phase_snoc (pos_ s) evs (EvPwrite d off rc) Hphase
                eq_refl) as Hsn.
  unfold failed_write in Hsn. simpl in Hsn.
  rewrite (writing_phase_pos Hphase) in Hsn.
  destruct (rc =? 0) eqn:Hrc; simpl in *;
    (split; [split; [exact Hw | split; [simpl; congruence | ]]
            | reflexivity]);
    simpl; rewrite ?Herr; exact Hsn.
Qed.

(** LLVM's calls keep it, whatever program issues them. *)
Lemma run_prog_step {R : Type} (p : pwrite_prog R) : forall s w evs,
  pwrite_inv s evs ->
  exists new,
    trace (snd (run_prog p s w)) = trace w ++ new /\
    pwrite_inv (snd (fst (run_prog p s w))) (evs ++ new) /\
    callbacks (snd (fst (run_prog p s w))) = callbacks s.
Proof.
  induction p as [r | d k IH | d off k IH | k IH];
    intros s w evs Hinv; simpl.
  - exists []. rewrite !app_nil_r. auto.
  - destruct (write_impl_step d s w evs Hinv) as (n1 & Ht & Hi & Hc).
    destruct (write_impl d s w) as [s1 w1]. simpl in *.
    destruct (IH s1 w1 _ Hi) as (n2 & Ht2 & Hi2 & Hc2).
    exists (n1 ++ n2). rewrite Ht2, Ht, !app_assoc in *.
    split; [reflexivity | split; [exact Hi2 | congruence]].
  - destruct (pwrite_impl_step d off s w evs Hinv) as (n1 & Ht & Hi & Hc).
    destruct (pwrite_impl d off s w) as [s1 w1]. simpl in *.
    destruct (IH s1 w1 _ Hi) as (n2 & Ht2 & Hi2 & Hc2).
    exists (n1 ++ n2). rewrite Ht2, Ht, !app_assoc in *.
    split; [reflexivity | split; [exact Hi2 | congruence]].
  - apply IH, Hinv.
Qed.

Lemma run_prog_returns {R : Type} (P : R -> Prop) (p : pwrite_prog R) :
  returns P p -> forall s w, P (fst (fst (run_prog p s w))).
Proof.
  induction p as [r | d k IH | d off k IH | k IH]; simpl; intros H s w.
  - exact H.
  - destruct (write_impl d s w). now apply IH.
  - destruct (pwrite_impl d off s w). now apply IH.
  - now apply IH.
Qed.

(** The destructor: what it adds to the trace, what it does to the
    latch. *)
Lemma destroy_trace s w :
  trace (snd (destroy s w))
  = trace w ++ teardown (had_error_ s) (flush_cb_ s) w.
Proof.
  unfold destroy, teardown.
  destruct (had_error_ s); simpl; [now rewrite app_nil_r|].
  destruct (flush_cb_ s) as [cb|]; [|now rewrite app_nil_r].
  pose proof (call_flush_trace cb w) as Ht.
  destruct (call_flush cb w) as [rc w']. simpl in Ht.
  now destruct (negb (rc =? 0)).
Qed.

Lemma destroy_latch s w :
  had_error_ (fst (destroy s w))
  = had_error_ s
    || existsb failed (teardown (had_error_ s) (flush_cb_ s) w).
Proof.
  unfold destroy, teardown.
  destruct (had_error_ s) eqn:He; simpl; [exact He|].
  destruct (flush_cb_ s) as [cb|]; simpl; [|exact He].
  pose proof (call_flush_status cb w) as Hs.
  destruct (call_flush cb w) as [rc w']. simpl in Hs. rewrite <- Hs.
  unfold failed. simpl. rewrite orb_false_r.
  now destruct (negb (rc =? 0)).
Qed.

End WithSink.

(** *** The entry point on valid arguments *)

Section EntryPoint.
Context {Sink IR : Type}.
Variable malloc : nat -> bool.

Lemma store_message_twice (msg : option (option string)) a b :
  store_message (store_message msg a) b = store_message msg b.
Proof. now destruct msg. Qed.

(** With all four mandatory arguments present the entry point runs the
    writing phase on a fresh stream, fixes its result, and destroys the
    stream. *)
Lemma emit_valid (tm : TargetMachine IR) (m : Module IR) (codegen : Z)
      (wf : rust_write_cb Sink) (pf : rust_pwrite_cb Sink)
      (scb : option (rust_seek_cb Sink))
      (fcb : option (rust_flush_cb Sink))
      (msg : option (option string)) (w : World Sink) :
  let r := bpf_linker_emit_to_pwrite_stream malloc (Some tm) (Some m)
             codegen (Some wf) (Some pf) scb fcb msg w in
  let st := setup tm codegen (Some wf) (Some pf) scb fcb w in
  let refused := fst (fst st) in
  exists body s w1,
    pwrite_inv s body /\
    callbacks s = (Some wf, Some pf, scb, fcb) /\
    trace w1 = trace w ++ body /\
    (refused = true -> s = snd (fst st) /\ w1 = snd st) /\
    em_world r = snd (destroy s w1) /\
    em_stream r = Some (fst (destroy s w1)) /\
    em_ret r = (if refused || had_error_ s then 1 else 0) /\
    em_message r
    = store_message msg
        (if refused then dup_cstr malloc (Some msg_cannot_emit)
         else if had_error_ s then dup_cstr malloc (Some msg_sink)
              else None) /\
    em_module r
    = Some (module_after tm codegen
              (setDataLayout m (createDataLayout tm)) st).
Proof.
  intros r st refused. subst r refused.
  unfold bpf_linker_emit_to_pwrite_stream, module_after.
  fold (file_type codegen).
  assert (Hinit : pwrite_inv (new (Some wf) (Some pf) scb fcb) []).
  { split; [discriminate | split; [discriminate | ]].
    apply writing_phase_nil. }
  destruct (run_prog_step (addPassesToEmitFile tm (file_type codegen))
              _ w [] Hinit) as (n1 & Ht1 & Hi1 & Hc1).
  fold (setup tm codegen (Some wf) (Some pf) scb fcb w)
    in Ht1, Hi1, Hc1 |- *.
  subst st.
  destruct (setup tm codegen (Some wf) (Some pf) scb fcb w)
    as [[refused s1] w1].
  simpl in Ht1, Hi1, Hc1 |- *.
  destruct refused.
  - exists n1, s1, w1. rewrite store_message_twice.
    destruct (destroy s1 w1) as [s2 w2]. simpl.
    repeat (split; [solve [auto] | ]). reflexivity.
  - destruct (run_prog_step
                (run_passes tm (file_type codegen)
                   (setDataLayout m (createDataLayout tm)))
                s1 w1 _ Hi1) as (n2 & Ht2 & Hi2 & Hc2).
    destruct (run_prog _ s1 w1) as [[m2 s2] w2].
    simpl in Ht2, Hi2, Hc2 |- *.
    exists (n1 ++ n2), s2, w2. unfold had_error.
    rewrite Ht2, Ht1, app_assoc.
    destruct (had_error_ s2) eqn:He; rewrite ?store_message_twice;
      destruct (destroy s2 w2) as [s3 w3]; simpl;
      (split; [exact Hi2 | ]);
      (split; [rewrite Hc2, Hc1; reflexivity | ]);
      repeat (split; [solve [auto | intros; discriminate] | ]);
      reflexivity.
Qed.

End EntryPoint.
End PwriteFacts.

(** ** [RustRawOStream] *)

Module BitcodeFacts.
Import BitcodeShim.

Section WithSink.
Context {Sink : Type}.
Implicit Types (s : RustRawOStream Sink) (w : World Sink).

Lemma raw_write_impl_latched d s w :
  had_error_ s = true -> write_impl d s w = (s, w).
Proof. unfold write_impl. now intros ->. Qed.

Lemma raw_write_impl_empty s w : write_impl [] s w = (s, w).
Proof. unfold write_impl. simpl. now rewrite orb_true_r. Qed.

Lemma raw_destroy_latched s w : had_error_ s = true -> destroy s w = (s, w).
Proof. unfold destroy, flush. now intros ->. Qed.

Lemma raw_write_impl_step d s w evs :
  raw_inv s evs ->
  exists new,
    trace (snd (write_impl d s w)) = trace w ++ new /\
    raw_inv (fst (write_impl d s w)) (evs ++ new) /\
    raw_callbacks (fst (write_impl d s w)) = raw_callbacks s.
Proof.
  intros (Hw & Hall & Hphase). unfold write_impl.
  destruct (had_error_ s || (Z.of_nat (length d) =? 0)) eqn:Hskip.
  { exists []. rewrite !app_nil_r. simpl.
    split; [reflexivity | split; [ | reflexivity ]].
    split; [exact Hw | split; [exact Hall | exact Hphase]]. }
  apply orb_false_elim in Hskip. destruct Hskip as [Herr _].
  destruct (write_cb_ s) as [cb|] eqn:Hcb; [|congruence].
  pose proof (call_write_trace cb d w) as Htr.
  destruct (call_write cb d w) as [rc w']. simpl in Htr.
  exists [EvWrite d rc]. split.
  { now destruct (negb (rc =? 0)). }
  rewrite Herr in Hphase.
  pose proof (writing_phase_snoc (pos_ s) evs (EvWrite d rc) Hphase
                eq_refl) as Hsn.
  unfold failed_write in Hsn. simpl in Hsn.
  assert (Hall' : forallb is_write (evs ++ [EvWrite d rc]) = true).
  { rewrite forallb_app, Hall. reflexivity. }
  destruct (rc =? 0) eqn:Hrc; simpl in *.
  - split; [split; [simpl; congruence | split; [exact Hall' | ]]
           | reflexivity].
    simpl. rewrite Herr. exact Hsn.
  - rewrite (writing_phase_pos Hphase) in Hsn.
    split; [split; [simpl; congruence | split; [exact Hall' | exact Hsn]]
           | reflexivity].
Qed.

Lemma raw_run_prog_step (p : ostream_prog) : forall s w evs,
  raw_inv s evs ->
  exists new,
    trace (snd (run_prog p s w)) = trace w ++ new /\
    raw_inv (fst (run_prog p s w)) (evs ++ new) /\
    raw_callbacks (fst (run_prog p s w)) = raw_callbacks s.
Proof.
  induction p as [ | d k IH | k IH]; intros s w evs Hinv; simpl.
  - exists []. rewrite !app_nil_r. auto.
  - destruct (raw_write_impl_step d s w evs Hinv) as (n1 & Ht & Hi & Hc).
    destruct (write_impl d s w) as [s1 w1]. simpl in *.
    destruct (IH s1 w1 _ Hi) as (n2 & Ht2 & Hi2 & Hc2).
    exists (n1 ++ n2). rewrite Ht2, Ht, !app_assoc in *.
    split; [reflexivity | split; [exact Hi2 | congruence]].
  - apply IH, Hinv.
Qed.

Lemma raw_destroy_trace s w :
  trace (snd (destroy s w))
  = trace w ++ teardown (had_error_ s) (flush_cb_ s) w.
Proof.
  unfold destroy, flush, teardown.
  destruct (had_error_ s); simpl; [now rewrite app_nil_r|].
  destruct (flush_cb_ s) as [cb|]; [|now rewrite app_nil_r].
  pose proof (call_flush_trace cb w) as Ht.
  destruct (call_flush cb w) as [rc w']. simpl in Ht.
  now destruct (negb (rc =? 0)).
Qed.

Lemma raw_destroy_latch s w :
  had_error_ (fst (destroy s w))
  = had_error_ s
    || existsb failed (teardown (had_error_ s) (flush_cb_ s) w).
Proof.
  unfold destroy, flush, teardown.
  destruct (had_error_ s) eqn:He; simpl; [exact He|].
  destruct (flush_cb_ s) as [cb|]; simpl; [|exact He].
  pose proof (call_flush_status cb w) as Hs.
  destruct (call_flush cb w) as [rc w']. simpl in Hs. rewrite <- Hs.
  unfold failed. simpl. rewrite orb_false_r.
  now destruct (negb (rc =? 0)).
Qed.

(** *** The entry points on valid arguments *)

Context {Module : Type}.

Lemma print_ir_as_bitcode (emit : Module -> ostream_prog) M wcb fcb w :
  bpf_linker_print_ir_to_stream emit M wcb fcb w
  = bpf_linker_write_bitcode_to_stream emit M wcb fcb w.
Proof. reflexivity. Qed.

Lemma stream_valid (emit : Module -> ostream_prog) (m : Module)
      (wf : rust_write_cb Sink) (fcb : option (rust_flush_cb Sink)) w :
  let r := bpf_linker_write_bitcode_to_stream emit (Some m) (Some wf)
             fcb w in
  exists body s w1,
    raw_inv s body /\
    raw_callbacks s = (Some wf, fcb) /\
    trace w1 = trace w ++ body /\
    sr_world r = snd (destroy s w1) /\
    sr_stream r = Some (fst (destroy s w1)) /\
    sr_ret r = (if had_error_ s then 1 else 0).
Proof.
  intros r. subst r. unfold bpf_linker_write_bitcode_to_stream.
  assert (Hinit : raw_inv (new (Some wf) fcb) []).
  { split; [discriminate | split; [reflexivity | ]].
    apply writing_phase_nil. }
  destruct (raw_run_prog_step (emit m) _ w [] Hinit)
    as (n1 & Ht1 & Hi1 & Hc1).
  destruct (run_prog (emit m) (new (Some wf) fcb) w) as [s1 w1].
  simpl in Ht1, Hi1, Hc1 |- *. unfold had_error.
  exists n1, s1, w1.
  destruct (destroy s1 w1) as [s2 w2]. simpl.
  repeat (split; [solve [auto] | ]). reflexivity.
Qed.

End WithSink.
End BitcodeFacts.

(** ** Sequences of calls *)

Section OpsFacts.
Context {Sink : Type}.
Import Ops.

Lemma run_op_sticky o (s : PwriteShim.RustPwriteStream Sink) w :
  PwriteShim.had_error_ s = true ->
  PwriteShim.had_error_ (fst (run_op o s w)) = true.
Proof.
  intros H. destruct o as [d | d off | off]; simpl.
  - now rewrite PwriteFacts.write_impl_latched.
  - now rewrite PwriteFacts.pwrite_impl_latched.
  - pose proof (PwriteFacts.seek_append_pos_latch off s w) as Hl.
    destruct (PwriteShim.seek_append_pos off s w) as [[b s'] w'].
    simpl in *. congruence.
Qed.

Lemma run_ops_sticky ops : forall (s : PwriteShim.RustPwriteStream Sink) w,
  PwriteShim.had_error_ s = true ->
  PwriteShim.had_error_ (fst (run_ops ops s w)) = true.
Proof.
  induction ops as [|o ops IH]; intros s w H; simpl; [exact H|].
  pose proof (run_op_sticky o s w H) as H1.
  destruct (run_op o s w) as [s1 w1]. now apply IH.
Qed.

(** Writes and offset-writes keep the writing-phase invariant. *)
Lemma run_ops_step ops : forall (s : PwriteShim.RustPwriteStream Sink) w evs,
  seek_free ops = true -> pwrite_inv s evs ->
  exists new,
    trace (snd (run_ops ops s w)) = trace w ++ new /\
    pwrite_inv (fst (run_ops ops s w)) (evs ++ new).
Proof.
  induction ops as [|o ops IH]; intros s w evs Hfree Hinv; simpl.
  - exists []. now rewrite !app_nil_r.
  - simpl in Hfree. apply andb_prop in Hfree. destruct Hfree as [Ho Hfree].
    assert (Hstep : exists new,
               trace (snd (run_op o s w)) = trace w ++ new /\
               pwrite_inv (fst (run_op o s w)) (evs ++ new)).
    { destruct o as [d | d off | off]; simpl in *; [ | | discriminate].
      - destruct (PwriteFacts.write_impl_step d s w evs Hinv)
          as (n & H1 & H2 & _). eauto.
      - destruct (PwriteFacts.pwrite_impl_step d off s w evs Hinv)
          as (n & H1 & H2 & _). eauto. }
    destruct Hstep as (n1 & Ht1 & Hi1).
    destruct (run_op o s w) as [s1 w1]. simpl in *.
    destruct (IH s1 w1 _ Hfree Hi1) as (n2 & Ht2 & Hi2).
    exists (n1 ++ n2). rewrite Ht2, Ht1, !app_assoc in *. auto.
Qed.

(** While the latch stays clear the position advances by exactly what the
    forward writes asked to append. *)
Lemma run_ops_pos ops : forall (s : PwriteShim.RustPwriteStream Sink) w a,
  seek_free ops = true ->
  PwriteShim.pos_ s = wrap64 a ->
  PwriteShim.had_error_ (fst (run_ops ops s w)) = false ->
  PwriteShim.pos_ (fst (run_ops ops s w)) = wrap64 (a + total_appended ops).
Proof.
  induction ops as [|o ops IH]; intros s w a Hfree Hpos Hclear; simpl in *.
  - now rewrite Z.add_0_r.
  - apply andb_prop in Hfree. destruct Hfree as [Ho Hfree].
    destruct (PwriteShim.had_error_ (fst (run_op o s w))) eqn:Hmid.
    { pose proof (run_ops_sticky ops (fst (run_op o s w))
                    (snd (run_op o s w)) Hmid) as Hs.
      destruct (run_op o s w) as [s1 w1]. simpl in *. congruence. }
    assert (Hp1 : PwriteShim.pos_ (fst (run_op o s w))
                  = wrap64 (a + appended o)).
    { destruct o as [d | d off | off]; simpl in *; [ | | discriminate].
      - unfold PwriteShim.write_impl in *.
        destruct (PwriteShim.had_error_ s || _) eqn:Hskip.
        + simpl. apply orb_prop in Hskip. destruct Hskip as [He | Hz].
          * simpl in Hmid. congruence.
          * apply Z.eqb_eq in Hz. now rewrite Hz, Z.add_0_r.
        + destruct (PwriteShim.write_cb_ s) as [cb|];
            [|simpl in Hmid; discriminate].
          destruct (call_write cb d w) as [rc w'].
          destruct (negb (rc =? 0)); simpl in *; [discriminate|].
          now rewrite Hpos, wrap64_add_l.
      - rewrite Z.add_0_r, <- Hpos.
        apply (PwriteFacts.pwrite_impl_pos d off s w). }
    destruct (run_op o s w) as [s1 w1]. simpl in *.
    rewrite (IH s1 w1 (a + appended o) Hfree Hp1 Hclear).
    f_equal. lia.
Qed.

Lemma run_writes_latched ds : forall (s : BitcodeShim.RustRawOStream Sink) w,
  BitcodeShim.had_error_ s = true -> run_writes ds s w = (s, w).
Proof.
  induction ds as [|d ds IH]; intros s w H; simpl; [reflexivity|].
  rewrite BitcodeFacts.raw_write_impl_latched by exact H. now apply IH.
Qed.

End OpsFacts.

(** ** Lists of events *)

Lemma failed_write_is_wp e : failed_write e = true -> is_wp e = true.
Proof. unfold failed_write, is_wp. now intros H%andb_prop. Qed.

Lemma no_event_when_all_ok (evs : list Event) :
  Forall (fun e => status e = 0) evs -> existsb failed_write evs = false.
Proof.
  induction 1 as [|e evs He _ IH]; simpl; [reflexivity|].
  rewrite IH, orb_false_r. unfold failed_write.
  now rewrite He, andb_false_r.
Qed.

(** When only the last event of a list may be a failed write, nothing
    follows a failed write. *)
Lemma failed_write_is_last (evs pre post : list Event) (e : Event) :
  existsb failed_write (removelast evs) = false ->
  evs = pre ++ e :: post -> failed_write e = true -> post = [].
Proof.
  intros Hlast -> He. destruct post as [|p post]; [reflexivity|].
  rewrite removelast_app in Hlast by discriminate.
  rewrite existsb_app in Hlast. apply orb_false_elim in Hlast.
  destruct Hlast as [_ Hlast].
  change (removelast (e :: p :: post)) with (e :: removelast (p :: post))
    in Hlast.
  simpl existsb in Hlast. now rewrite He in Hlast.
Qed.

Lemma wp_not_flush (evs : list Event) :
  forallb is_wp evs = true -> flushes evs = 0%nat.
Proof.
  unfold flushes. induction evs as [|e evs IH]; simpl; [reflexivity|].
  intros H%andb_prop. destruct H as [He H].
  destruct e; simpl in *; try discriminate; now apply IH.
Qed.

Lemma flushes_app (xs ys : list Event) :
  flushes (xs ++ ys) = (flushes xs + flushes ys)%nat.
Proof. unfold flushes. now rewrite filter_app, length_app. Qed.

Lemma teardown_no_failed_write {Sink : Type} latch
      (fcb : option (rust_flush_cb Sink)) (w : World Sink) :
  existsb failed_write (teardown latch fcb w) = false.
Proof. unfold teardown. destruct latch; [reflexivity|]. now destruct fcb. Qed.

Lemma teardown_flushes {Sink : Type} latch
      (fcb : option (rust_flush_cb Sink)) (w : World Sink) :
  flushes (teardown latch fcb w)
  = if latch then 0%nat else match fcb with Some _ => 1%nat | None => 0%nat end.
Proof. unfold teardown. destruct latch; [reflexivity|]. now destruct fcb. Qed.

(** * The claims *)

(** C6.  A forward write or an offset-write of length 0 returns at once on
    either stream class, whatever the latch: the stream object (position and
    latch included) and the world (sink and trace of callback invocations)
    are exactly what they were. *)
Theorem zero_length_write_is_noop {Sink : Type} (data : list byte) :
  length data = 0%nat ->
  (forall (s : PwriteShim.RustPwriteStream Sink) (w : World Sink) (off : Z),
      PwriteShim.write_impl data s w = (s, w) /\
      PwriteShim.pwrite_impl data off s w = (s, w)) /\
  (forall (s : BitcodeShim.RustRawOStream Sink) (w : World Sink),
      BitcodeShim.write_impl data s w = (s, w)).
Proof.
  intros Hlen. apply length_zero_iff_nil in Hlen. subst data. split.
  - intros s w off. split.
    + apply PwriteFacts.write_impl_empty.
    + apply PwriteFacts.pwrite_impl_empty.
  - intros s w. apply BitcodeFacts.raw_write_impl_empty.
Qed.

Lemma zero_length_write_is_noop_witness :
  let s := PwriteShim.mkStream (Some VecSink.vec_write)
             (Some VecSink.vec_pwrite) None (Some VecSink.vec_flush) 4 true in
  let w := VecSink.empty 16 0 0 in
  PwriteShim.write_impl [] s w = (s, w) /\
  PwriteShim.pwrite_impl [] 100 s w = (s, w).
Proof.
  intros s w.
  exact (proj1 (zero_length_write_is_noop (Sink := VecSink.Vec) [] eq_refl)
           s w 100).
Defined.

(** C3.  A null mandatory argument makes an entry point return 1 at once:
    the world is untouched (no callback ran), no stream was constructed, and
    on the random-access path the module is untouched and the message slot,
    if any, receives the invalid-arguments text.  The random-access entry
    point needs the target machine, the module, [write_cb] and [pwrite_cb];
    the two append-only entry points need the module and [write_cb] only:
    a stream is constructed exactly when none of these is null, whatever the
    optional callbacks are. *)
Theorem missing_argument_fails_fast {Sink IR Module : Type}
        (malloc : nat -> bool)
        (T : option (PwriteShim.TargetMachine IR))
        (M : option (PwriteShim.Module IR)) (codegen : Z)
        (emit : Module -> BitcodeShim.ostream_prog) (M' : option Module)
        (wcb : option (rust_write_cb Sink))
        (pwcb : option (rust_pwrite_cb Sink))
        (scb : option (rust_seek_cb Sink))
        (fcb : option (rust_flush_cb Sink))
        (msg : option (option string)) (w : World Sink) :
  let r := PwriteShim.bpf_linker_emit_to_pwrite_stream malloc T M codegen
             wcb pwcb scb fcb msg w in
  let b := BitcodeShim.bpf_linker_write_bitcode_to_stream emit M' wcb fcb w in
  let p := BitcodeShim.bpf_linker_print_ir_to_stream emit M' wcb fcb w in
  (pwrite_args_missing T M wcb pwcb = true ->
   PwriteShim.em_ret r = 1 /\ PwriteShim.em_world r = w /\
   PwriteShim.em_stream r = None /\ PwriteShim.em_module r = M /\
   PwriteShim.em_message r
   = PwriteShim.store_message msg
       (PwriteShim.dup_cstr malloc (Some PwriteShim.msg_invalid))) /\
  (append_args_missing M' wcb = true ->
   (BitcodeShim.sr_ret b = 1 /\ BitcodeShim.sr_world b = w /\
    BitcodeShim.sr_stream b = None) /\
   (BitcodeShim.sr_ret p = 1 /\ BitcodeShim.sr_world p = w /\
    BitcodeShim.sr_stream p = None)) /\
  match PwriteShim.em_stream r with None => true | Some _ => false end
  = pwrite_args_missing T M wcb pwcb /\
  match BitcodeShim.sr_stream b with None => true | Some _ => false end
  = append_args_missing M' wcb /\
  match BitcodeShim.sr_stream p with None => true | Some _ => false end
  = append_args_missing M' wcb.
Proof.
  intros r b p.
  assert (Hr : pwrite_args_missing T M wcb pwcb = true ->
               r = PwriteShim.mkEmitResult 1
                     (PwriteShim.store_message msg
                        (PwriteShim.dup_cstr malloc
                           (Some PwriteShim.msg_invalid))) M None w).
  { intros Hm. subst r. unfold PwriteShim.bpf_linker_emit_to_pwrite_stream.
    destruct T, M, wcb, pwcb; try discriminate Hm; cbv zeta;
      now rewrite PwriteFacts.store_message_twice. }
  assert (Hb : append_args_missing M' wcb = true ->
               b = BitcodeShim.mkStreamResult 1 None w /\
               p = BitcodeShim.mkStreamResult 1 None w).
  { intros Hm. subst b p.
    destruct M', wcb; try discriminate Hm; split; reflexivity. }
  split; [intros Hm; rewrite (Hr Hm); repeat split | ].
  split; [intros Hm; destruct (Hb Hm) as [-> ->]; repeat split | ].
  split; [ | split].
  - destruct (pwrite_args_missing T M wcb pwcb) eqn:Hm.
    + now rewrite (Hr eq_refl).
    + subst r.
      destruct T as [tm|], M as [m|], wcb as [wf|], pwcb as [pf|];
        try discriminate Hm.
      destruct (PwriteFacts.emit_valid malloc tm m codegen wf pf scb fcb
                  msg w) as (body & s & w1 & _ & _ & _ & _ & _ & Hs & _).
      now rewrite Hs.
  - destruct (append_args_missing M' wcb) eqn:Hm.
    + now destruct (Hb eq_refl) as [-> _].
    + subst b. destruct M' as [m|], wcb as [wf|]; try discriminate Hm.
      destruct (BitcodeFacts.stream_valid emit m wf fcb w)
        as (body & s & w1 & _ & _ & _ & _ & Hs & _).
      now rewrite Hs.
  - destruct (append_args_missing M' wcb) eqn:Hm.
    + now destruct (Hb eq_refl) as [_ ->].
    + subst p. destruct M' as [m|], wcb as [wf|]; try discriminate Hm.
      destruct (BitcodeFacts.stream_valid emit m wf fcb w)
        as (body & s & w1 & _ & _ & _ & _ & Hs & _).
      now rewrite BitcodeFacts.print_ir_as_bitcode, Hs.
Qed.

Lemma missing_argument_fails_fast_witness :
  let w := VecSink.empty 16 0 0 in
  let r := PwriteShim.bpf_linker_emit_to_pwrite_stream VecSink.always_fits
             (Some VecSink.emitting) (Some VecSink.a_module)
             PwriteShim.LLVMObjectFile (Some VecSink.vec_write) None None
             (Some VecSink.vec_flush) (Some None) w in
  let b := BitcodeShim.bpf_linker_write_bitcode_to_stream VecSink.bitcode_of
             None (Some VecSink.vec_write) (Some VecSink.vec_flush) w in
  (PwriteShim.em_ret r = 1 /\ PwriteShim.em_world r = w /\
   PwriteShim.em_stream r = None) /\
  (BitcodeShim.sr_ret b = 1 /\ BitcodeShim.sr_world b = w /\
   BitcodeShim.sr_stream b = None).
Proof.
  intros w r b.
  pose proof (missing_argument_fails_fast VecSink.always_fits
                (Some VecSink.emitting) (Some VecSink.a_module)
                PwriteShim.LLVMObjectFile VecSink.bitcode_of None
                (Some VecSink.vec_write) None None (Some VecSink.vec_flush)
                (Some None) w) as (Hp & Ha & _).
  destruct (Hp eq_refl) as (H1 & H2 & H3 & _).
  destruct (Ha eq_refl) as ((H4 & H5 & H6) & _).
  exact (conj (conj H1 (conj H2 H3)) (conj H4 (conj H5 H6))).
Defined.

(** C4.  On a stream constructed with its two mandatory callbacks, run any
    sequence of forward writes and offset-writes in which every callback
    invocation returns 0.  The latch is clear and [current_pos()] is the sum
    of the sizes of the forward writes, as a [uint64_t]: the sum itself
    whenever it fits in 64 bits.  An offset-write, whatever its offset,
    length and outcome, leaves [current_pos()] as it was. *)
Theorem position_is_sum_of_forward_writes {Sink : Type}
        (wf : rust_write_cb Sink) (pf : rust_pwrite_cb Sink)
        (scb : option (rust_seek_cb Sink)) (fcb : option (rust_flush_cb Sink))
        (ops : list Ops.StreamOp) (w : World Sink) :
  let s0 := PwriteShim.new (Some wf) (Some pf) scb fcb in
  let s' := fst (Ops.run_ops ops s0 w) in
  let w' := snd (Ops.run_ops ops s0 w) in
  Ops.seek_free ops = true ->
  Forall (fun e => status e = 0) (events_since w w') ->
  PwriteShim.had_error s' = false /\
  PwriteShim.current_pos s' = wrap64 (Ops.total_appended ops) /\
  (Ops.total_appended ops < 2 ^ 64 ->
   PwriteShim.current_pos s' = Ops.total_appended ops) /\
  (forall data offset (s : PwriteShim.RustPwriteStream Sink) (w0 : World Sink),
      PwriteShim.current_pos (fst (PwriteShim.pwrite_impl data offset s w0))
      = PwriteShim.current_pos s).
Proof.
  intros s0 s' w' Hfree Hok.
  assert (Hinit : pwrite_inv s0 []).
  { split; [discriminate | split; [discriminate | apply writing_phase_nil]]. }
  destruct (run_ops_step ops s0 w [] Hfree Hinit) as (new & Ht & Hinv).
  fold s' in Hinv. fold w' in Ht. simpl in Hinv.
  rewrite (events_since_app _ _ _ Ht) in Hok.
  destruct Hinv as (_ & _ & _ & _ & Hlatch & _).
  rewrite (no_event_when_all_ok _ Hok) in Hlatch.
  assert (Hpos : PwriteShim.pos_ s' = wrap64 (0 + Ops.total_appended ops)).
  { apply run_ops_pos; [exact Hfree | reflexivity | exact Hlatch]. }
  rewrite Z.add_0_l in Hpos.
  assert (Hnonneg : 0 <= Ops.total_appended ops).
  { clear. induction ops as [|o ops IH]; simpl; [lia|].
    destruct o; simpl; lia. }
  split; [exact Hlatch | split; [exact Hpos | split]].
  - intros Hfit. unfold PwriteShim.current_pos. rewrite Hpos.
    apply wrap64_small. lia.
  - intros. apply PwriteFacts.pwrite_impl_pos.
Qed.

Lemma position_is_sum_of_forward_writes_witness :
  let ops := [Ops.OpWrite [x01; x02; x03; x04];
              Ops.OpPwrite [x0a; x0b; x0c; x0d] 100;
              Ops.OpWrite [x05; x06]] in
  let s0 := PwriteShim.new (Some VecSink.vec_write) (Some VecSink.vec_pwrite)
              None None in
  PwriteShim.current_pos (fst (Ops.run_ops ops s0 (VecSink.empty 200 0 0)))
  = 6.
Proof.
  intros ops s0.
  refine (proj1 (proj2 (proj2
            (position_is_sum_of_forward_writes VecSink.vec_write
               VecSink.vec_pwrite None None ops (VecSink.empty 200 0 0)
               eq_refl _))) _).
  - vm_compute. repeat constructor.
  - vm_compute. reflexivity.
Defined.

(** ** After the latch is set *)

Section Latched.
Context {Sink : Type}.
Import Ops.

Lemma seek_append_pos_trace off (s : PwriteShim.RustPwriteStream Sink) w :
  trace (snd (PwriteShim.seek_append_pos off s w))
  = trace w ++ match PwriteShim.seek_cb_ s with
               | Some cb => [EvSeek off (fst (cb off (sink w)))]
               | None => []
               end.
Proof.
  unfold PwriteShim.seek_append_pos. simpl.
  destruct (PwriteShim.seek_cb_ s) as [cb|]; [|now rewrite app_nil_r].
  unfold call_seek. now destruct (cb off (sink w)).
Qed.

(** On a latched stream a call adds one seek event when it is a
    repositioning and a seek callback was supplied, and nothing
    otherwise. *)
Lemma run_op_latched o (s : PwriteShim.RustPwriteStream Sink) w :
  PwriteShim.had_error_ s = true ->
  exists new,
    trace (snd (run_op o s w)) = trace w ++ new /\
    forallb is_seek new = true /\
    length new = match PwriteShim.seek_cb_ s with
                 | Some _ => if is_seek_op o then 1%nat else 0%nat
                 | None => 0%nat
                 end /\
    callbacks (fst (run_op o s w)) = callbacks s.
Proof.
  intros H. destruct o as [d | d off | off]; simpl.
  - rewrite PwriteFacts.write_impl_latched by exact H.
    exists []. rewrite app_nil_r. now destruct (PwriteShim.seek_cb_ s).
  - rewrite PwriteFacts.pwrite_impl_latched by exact H.
    exists []. rewrite app_nil_r. now destruct (PwriteShim.seek_cb_ s).
  - pose proof (seek_append_pos_trace off s w) as Ht.
    pose proof (PwriteFacts.seek_append_pos_callbacks off s w) as Hc.
    destruct (PwriteShim.seek_append_pos off s w) as [[ok s1] w1].
    simpl in *. eexists. split; [exact Ht|].
    now destruct (PwriteShim.seek_cb_ s).
Qed.

Lemma run_ops_latched ops : forall (s : PwriteShim.RustPwriteStream Sink) w,
  PwriteShim.had_error_ s = true ->
  exists new,
    trace (snd (run_ops ops s w)) = trace w ++ new /\
    forallb is_seek new = true /\
    length new = match PwriteShim.seek_cb_ s with
                 | Some _ => seek_ops ops
                 | None => 0%nat
                 end /\
    callbacks (fst (run_ops ops s w)) = callbacks s.
Proof.
  induction ops as [|o ops IH]; intros s w H; simpl.
  - exists []. rewrite app_nil_r. now destruct (PwriteShim.seek_cb_ s).
  - destruct (run_op_latched o s w H) as (n1 & Ht1 & Hs1 & Hl1 & Hc1).
    pose proof (run_op_sticky o s w H) as H1.
    destruct (run_op o s w) as [s1 w1]. simpl in *.
    destruct (IH s1 w1 H1) as (n2 & Ht2 & Hs2 & Hl2 & Hc2).
    exists (n1 ++ n2). rewrite Ht2, Ht1, app_assoc.
    split; [reflexivity|]. split; [now rewrite forallb_app, Hs1, Hs2|].
    split; [|congruence].
    rewrite length_app, Hl1, Hl2. unfold seek_ops, callbacks in *.
    assert (Hseek : PwriteShim.seek_cb_ s1 = PwriteShim.seek_cb_ s)
      by congruence.
    rewrite Hseek. destruct (PwriteShim.seek_cb_ s); [|reflexivity].
    simpl. now destruct (is_seek_op o).
Qed.

End Latched.

(** C1, as the code has it.  Once the latch is set it stays set, and for the
    rest of the stream's life, destructor included, neither the write, nor
    the offset-write, nor the flush callback is invoked.  The reposition
    callback is the exception: [seek_append_pos] does not consult the latch,
    so each repositioning of a latched [RustPwriteStream] still invokes the
    seek callback when one was supplied.  A latched [RustRawOStream], which
    has no repositioning, invokes nothing at all. *)
Theorem latched_stream_reaches_only_seek {Sink : Type}
        (ops : list Ops.StreamOp) (s : PwriteShim.RustPwriteStream Sink)
        (datas : list (list byte)) (t : BitcodeShim.RustRawOStream Sink)
        (w : World Sink) :
  (PwriteShim.had_error_ s = true ->
   let s1 := fst (Ops.run_ops ops s w) in
   let w1 := snd (Ops.run_ops ops s w) in
   let s2 := fst (PwriteShim.destroy s1 w1) in
   let w2 := snd (PwriteShim.destroy s1 w1) in
   PwriteShim.had_error_ s2 = true /\
   forallb is_seek (events_since w w2) = true /\
   length (events_since w w2)
   = match PwriteShim.seek_cb_ s with
     | Some _ => Ops.seek_ops ops
     | None => 0%nat
     end) /\
  (BitcodeShim.had_error_ t = true ->
   Ops.run_writes datas t w = (t, w) /\ BitcodeShim.destroy t w = (t, w)).
Proof.
  split.
  - intros H s1 w1 s2 w2.
    destruct (run_ops_latched ops s w H) as (new & Ht & Hs & Hl & _).
    pose proof (run_ops_sticky ops s w H) as H1. fold s1 in H1.
    fold w1 in Ht.
    subst s2 w2. rewrite PwriteFacts.destroy_latched by exact H1. simpl.
    rewrite (events_since_app _ _ _ Ht). auto.
  - intros H. split.
    + now apply run_writes_latched.
    + now apply BitcodeFacts.raw_destroy_latched.
Qed.

Lemma latched_stream_reaches_only_seek_witness :
  let s := PwriteShim.mkStream (Some VecSink.vec_write)
             (Some VecSink.vec_pwrite) (Some VecSink.vec_seek)
             (Some VecSink.vec_flush) 4 true in
  let t := BitcodeShim.mkStream (Some VecSink.vec_write)
             (Some VecSink.vec_flush) 4 true in
  let w := VecSink.empty 16 0 0 in
  let ops := [Ops.OpWrite [x01]; Ops.OpSeek 2; Ops.OpPwrite [x02] 0] in
  length (events_since w
            (snd (PwriteShim.destroy (fst (Ops.run_ops ops s w))
                    (snd (Ops.run_ops ops s w))))) = 1%nat /\
  Ops.run_writes [[x01]; [x02]] t w = (t, w).
Proof.
  intros s t w ops.
  pose proof (latched_stream_reaches_only_seek ops s [[x01]; [x02]] t w)
    as (Hp & Hr).
  destruct (Hp eq_refl) as (_ & _ & Hlen).
  destruct (Hr eq_refl) as (Hw & _).
  exact (conj Hlen Hw).
Defined.

(** C1 as stated fails: a forward write that the sink refuses sets the
    latch, and the repositioning that follows still invokes the seek
    callback. *)
Lemma seek_callback_runs_after_latch :
  let s0 := PwriteShim.new (Some VecSink.vec_write) (Some VecSink.vec_pwrite)
              (Some VecSink.vec_seek) (Some VecSink.vec_flush) in
  let s1 := fst (Ops.run_ops [Ops.OpWrite [x01]] s0 (VecSink.empty 0 0 0)) in
  let w1 := snd (Ops.run_ops [Ops.OpWrite [x01]] s0 (VecSink.empty 0 0 0)) in
  PwriteShim.had_error s1 = true /\
  events_since w1 (snd (PwriteShim.seek_append_pos 16 s1 w1)) = [EvSeek 16 0].
Proof. vm_compute. split; reflexivity. Qed.

(** ** The trace of one entry-point call *)

(** The writing phase followed by the destructor: a failed write is the
    last event of the whole call and means that the latch was set. *)
Lemma failed_write_ends_call {Sink : Type} latch pos body
      (fcb : option (rust_flush_cb Sink)) (w1 : World Sink) pre e post :
  writing_phase latch pos body ->
  body ++ teardown latch fcb w1 = pre ++ e :: post ->
  failed_write e = true ->
  post = [] /\ latch = true.
Proof.
  intros (_ & Hlast & Hlatch & _) Heq He.
  destruct latch.
  - unfold teardown in Heq. rewrite app_nil_r in Heq.
    split; [|reflexivity]. exact (failed_write_is_last _ _ _ _ Hlast Heq He).
  - exfalso.
    assert (Hnone : existsb failed_write (body ++ teardown false fcb w1)
                    = false).
    { now rewrite existsb_app, <- Hlatch, teardown_no_failed_write. }
    rewrite Heq, existsb_app in Hnone. simpl in Hnone.
    rewrite He, orb_true_r in Hnone. discriminate.
Qed.

(** The number of flush invocations of a call, and where they are. *)
Lemma flush_count_of_call {Sink : Type} latch pos body
      (fcb : option (rust_flush_cb Sink)) (w1 : World Sink) :
  writing_phase latch pos body ->
  let evs := body ++ teardown latch fcb w1 in
  existsb failed_write evs = latch /\
  flushes evs = (if latch then 0%nat
                 else match fcb with Some _ => 1%nat | None => 0%nat end) /\
  (forall pre e post, evs = pre ++ e :: post -> is_flush e = true -> post = []).
Proof.
  intros (Hwp & _ & Hlatch & _) evs. subst evs. split; [|split].
  - now rewrite existsb_app, teardown_no_failed_write, orb_false_r.
  - now rewrite flushes_app, (wp_not_flush _ Hwp), teardown_flushes.
  - intros pre e post Heq He.
    assert (Hin : forall x, In x body -> is_flush x = false).
    { intros x Hx. rewrite forallb_forall in Hwp. specialize (Hwp x Hx).
      now destruct x. }
    unfold teardown in Heq.
    destruct latch; [|destruct fcb as [cb|]]; rewrite ?app_nil_r in Heq.
    + rewrite (Hin e) in He; [discriminate|]. rewrite Heq.
      apply in_elt.
    + destruct post as [|x post] using rev_ind; [reflexivity|].
      rewrite app_comm_cons, app_assoc in Heq.
      apply app_inj_tail in Heq. destruct Heq as [Heq _].
      rewrite (Hin e) in He; [discriminate|]. rewrite Heq. apply in_elt.
    + rewrite (Hin e) in He; [discriminate|]. rewrite Heq. apply in_elt.
Qed.

(** C7, as the code has it.  Whenever a write or offset-write callback
    returns non-zero during a call of an entry point, that invocation is the
    last callback of the call, the latch of the stream is set and the entry
    point returns 1.  A non-zero return of the reposition callback is
    different: [seek_append_pos] reports it through its boolean result and
    leaves the latch as it was. *)
Theorem failed_write_latches_and_fails {Sink IR Module : Type}
        (malloc : nat -> bool)
        (tm : PwriteShim.TargetMachine IR) (m : PwriteShim.Module IR)
        (codegen : Z) (emit : Module -> BitcodeShim.ostream_prog)
        (m' : Module)
        (wf : rust_write_cb Sink) (pf : rust_pwrite_cb Sink)
        (scb : option (rust_seek_cb Sink)) (fcb : option (rust_flush_cb Sink))
        (msg : option (option string)) (w : World Sink) :
  let r := PwriteShim.bpf_linker_emit_to_pwrite_stream malloc (Some tm)
             (Some m) codegen (Some wf) (Some pf) scb fcb msg w in
  let b := BitcodeShim.bpf_linker_write_bitcode_to_stream emit (Some m')
             (Some wf) fcb w in
  let p := BitcodeShim.bpf_linker_print_ir_to_stream emit (Some m')
             (Some wf) fcb w in
  (forall pre e post,
      events_since w (PwriteShim.em_world r) = pre ++ e :: post ->
      failed_write e = true ->
      post = [] /\ PwriteShim.em_ret r = 1 /\
      option_map PwriteShim.had_error (PwriteShim.em_stream r) = Some true) /\
  (forall pre e post,
      events_since w (BitcodeShim.sr_world b) = pre ++ e :: post ->
      failed_write e = true ->
      post = [] /\ BitcodeShim.sr_ret b = 1 /\
      option_map BitcodeShim.had_error (BitcodeShim.sr_stream b)
      = Some true) /\
  (forall pre e post,
      events_since w (BitcodeShim.sr_world p) = pre ++ e :: post ->
      failed_write e = true ->
      post = [] /\ BitcodeShim.sr_ret p = 1 /\
      option_map BitcodeShim.had_error (BitcodeShim.sr_stream p)
      = Some true) /\
  (forall off (s : PwriteShim.RustPwriteStream Sink) (w0 : World Sink),
      PwriteShim.had_error_ (snd (fst (PwriteShim.seek_append_pos off s w0)))
      = PwriteShim.had_error_ s /\
      fst (fst (PwriteShim.seek_append_pos off s w0))
      = match PwriteShim.seek_cb_ s with
        | Some cb => fst (cb off (sink w0)) =? 0
        | None => true
        end) /\
  (forall (f : rust_flush_cb Sink) (s : PwriteShim.RustPwriteStream Sink)
          (t : BitcodeShim.RustRawOStream Sink) (w0 : World Sink),
      fst (f (sink w0)) <> 0 ->
      (PwriteShim.flush_cb_ s = Some f ->
       PwriteShim.had_error_ (fst (PwriteShim.destroy s w0)) = true) /\
      (BitcodeShim.flush_cb_ t = Some f ->
       BitcodeShim.had_error_ (fst (BitcodeShim.destroy t w0)) = true)).
Proof.
  intros r b p.
  assert (Hraw : forall pre e post,
             events_since w (BitcodeShim.sr_world b) = pre ++ e :: post ->
             failed_write e = true ->
             post = [] /\ BitcodeShim.sr_ret b = 1 /\
             option_map BitcodeShim.had_error (BitcodeShim.sr_stream b)
             = Some true).
  { intros pre e post Hev He.
    destruct (BitcodeFacts.stream_valid emit m' wf fcb w)
      as (body & s & w1 & (_ & _ & Hphase) & Hc & Ht & Hw & Hs & Hr).
    fold b in Hw, Hs, Hr.
    assert (Hfcb : BitcodeShim.flush_cb_ s = fcb)
      by (unfold raw_callbacks in Hc; congruence).
    rewrite (events_since_app w _ (body ++ teardown
               (BitcodeShim.had_error_ s) fcb w1)) in Hev
      by (rewrite Hw, BitcodeFacts.raw_destroy_trace, Ht, Hfcb;
          now rewrite app_assoc).
    destruct (failed_write_ends_call _ _ _ _ _ _ _ _ Hphase Hev He)
      as [Hpost Hlatch].
    rewrite Hr, Hs, Hlatch. simpl. unfold BitcodeShim.had_error.
    now rewrite BitcodeFacts.raw_destroy_latch, Hlatch. }
  split; [ | split; [exact Hraw | split; [exact Hraw | split]]].
  - intros pre e post Hev He.
    destruct (PwriteFacts.emit_valid malloc tm m codegen wf pf scb fcb msg w)
      as (body & s & w1 & (_ & _ & Hphase) & Hc & Ht & _ & Hw & Hs & Hr & _).
    fold r in Hw, Hs, Hr.
    assert (Hfcb : PwriteShim.flush_cb_ s = fcb)
      by (unfold callbacks in Hc; congruence).
    rewrite (events_since_app w _ (body ++ teardown
               (PwriteShim.had_error_ s) fcb w1)) in Hev
      by (rewrite Hw, PwriteFacts.destroy_trace, Ht, Hfcb;
          now rewrite app_assoc).
    destruct (failed_write_ends_call _ _ _ _ _ _ _ _ Hphase Hev He)
      as [Hpost Hlatch].
    rewrite Hr, Hs, Hlatch, orb_true_r. simpl. unfold PwriteShim.had_error.
    now rewrite PwriteFacts.destroy_latch, Hlatch.
  - intros off s w0. split; [apply PwriteFacts.seek_append_pos_latch|].
    unfold PwriteShim.seek_append_pos. simpl.
    destruct (PwriteShim.seek_cb_ s) as [cb|]; [|reflexivity].
    unfold call_seek. now destruct (cb off (sink w0)).
  - intros f s t w0 Hrc. apply Z.eqb_neq in Hrc. split; intros Hf.
    + rewrite PwriteFacts.destroy_latch, Hf. unfold teardown, failed.
      destruct (PwriteShim.had_error_ s); [reflexivity|].
      simpl. now rewrite Hrc.
    + rewrite BitcodeFacts.raw_destroy_latch, Hf. unfold teardown, failed.
      destruct (BitcodeShim.had_error_ t); [reflexivity|].
      simpl. now rewrite Hrc.
Qed.

Lemma failed_write_latches_and_fails_witness :
  let w := VecSink.empty 4 0 0 in
  let r := PwriteShim.bpf_linker_emit_to_pwrite_stream VecSink.always_fits
             (Some VecSink.emitting) (Some VecSink.a_module)
             PwriteShim.LLVMObjectFile (Some VecSink.vec_write)
             (Some VecSink.vec_pwrite) None (Some VecSink.vec_flush)
             (Some None) w in
  events_since w (PwriteShim.em_world r)
  = [] ++ EvWrite [x7f; x45; x4c; x46; x00; x00; x00; x00] 1 :: [] /\
  PwriteShim.em_ret r = 1.
Proof.
  intros w r.
  pose proof (failed_write_latches_and_fails VecSink.always_fits
                VecSink.emitting VecSink.a_module PwriteShim.LLVMObjectFile
                VecSink.bitcode_of tt VecSink.vec_write VecSink.vec_pwrite
                None (Some VecSink.vec_flush) (Some None) w) as (Hp & _).
  assert (Hev : events_since w (PwriteShim.em_world r)
                = [] ++ EvWrite [x7f; x45; x4c; x46; x00; x00; x00; x00] 1
                        :: []) by (vm_compute; reflexivity).
  destruct (Hp _ _ _ Hev eq_refl) as (_ & Hret & _).
  exact (conj Hev Hret).
Defined.

(** C7 as stated fails for the reposition callback: it returns 1, the latch
    stays clear, and the forward write that follows still reaches the write
    callback.  It fails for the flush callback too: it returns 1 and the
    entry point returns 0. *)
Lemma failed_seek_leaves_latch_clear :
  let s0 := PwriteShim.new (Some VecSink.vec_write) (Some VecSink.vec_pwrite)
              (Some VecSink.vec_seek) (Some VecSink.vec_flush) in
  let run := Ops.run_ops [Ops.OpSeek 16; Ops.OpWrite [x01]] s0
               (VecSink.empty 16 1 0) in
  let r := PwriteShim.bpf_linker_emit_to_pwrite_stream VecSink.always_fits
             (Some VecSink.emitting) (Some VecSink.a_module)
             PwriteShim.LLVMObjectFile (Some VecSink.vec_write)
             (Some VecSink.vec_pwrite) None (Some VecSink.vec_flush)
             (Some None) (VecSink.empty 16 0 1) in
  (trace (snd run) = [EvSeek 16 1; EvWrite [x01] 0] /\
   PwriteShim.had_error (fst run) = false) /\
  (In (EvFlush 1) (trace (PwriteShim.em_world r)) /\
   PwriteShim.em_ret r = 0).
Proof. vm_compute. repeat split. right. right. now left. Qed.

(** The events of a call of the random-access entry point on valid
    arguments: the writing phase, then the destructor. *)
Lemma emit_events {Sink IR : Type} (malloc : nat -> bool)
      (tm : PwriteShim.TargetMachine IR) (m : PwriteShim.Module IR)
      (codegen : Z) (wf : rust_write_cb Sink) (pf : rust_pwrite_cb Sink)
      (scb : option (rust_seek_cb Sink)) (fcb : option (rust_flush_cb Sink))
      (msg : option (option string)) (w : World Sink) :
  let r := PwriteShim.bpf_linker_emit_to_pwrite_stream malloc (Some tm)
             (Some m) codegen (Some wf) (Some pf) scb fcb msg w in
  let st := setup tm codegen (Some wf) (Some pf) scb fcb w in
  exists body (s : PwriteShim.RustPwriteStream Sink) (w1 : World Sink),
    writing_phase (PwriteShim.had_error_ s) (PwriteShim.pos_ s) body /\
    events_since w (PwriteShim.em_world r)
    = body ++ teardown (PwriteShim.had_error_ s) fcb w1 /\
    (fst (fst st) = true -> trace (snd st) = trace w ++ body) /\
    PwriteShim.em_ret r
    = (if fst (fst st) || PwriteShim.had_error_ s then 1 else 0) /\
    PwriteShim.em_message r
    = PwriteShim.store_message msg
        (if fst (fst st)
         then PwriteShim.dup_cstr malloc (Some PwriteShim.msg_cannot_emit)
         else if PwriteShim.had_error_ s
              then PwriteShim.dup_cstr malloc (Some PwriteShim.msg_sink)
              else None) /\
    option_map PwriteShim.had_error (PwriteShim.em_stream r)
    = Some (PwriteShim.had_error_ s
            || existsb failed (teardown (PwriteShim.had_error_ s) fcb w1)).
Proof.
  intros r st.
  destruct (PwriteFacts.emit_valid malloc tm m codegen wf pf scb fcb msg w)
    as (body & s & w1 & (_ & _ & Hphase) & Hc & Ht & Href & Hw & Hs & Hr
        & Hm & _).
  fold r in Hw, Hs, Hr, Hm. fold st in Href, Hr, Hm.
  assert (Hfcb : PwriteShim.flush_cb_ s = fcb)
    by (unfold callbacks in Hc; congruence).
  exists body, s, w1. split; [exact Hphase|]. split.
  { apply events_since_app.
    now rewrite Hw, PwriteFacts.destroy_trace, Ht, Hfcb, app_assoc. }
  split.
  { intros H. destruct (Href H) as [_ <-]. exact Ht. }
  split; [exact Hr|]. split; [exact Hm|].
  rewrite Hs. simpl. unfold PwriteShim.had_error.
  now rewrite PwriteFacts.destroy_latch, Hfcb.
Qed.

(** The same for the two append-only entry points. *)
Lemma stream_events {Sink Module : Type}
      (emit : Module -> BitcodeShim.ostream_prog) (m : Module)
      (wf : rust_write_cb Sink) (fcb : option (rust_flush_cb Sink))
      (w : World Sink) :
  let b := BitcodeShim.bpf_linker_write_bitcode_to_stream emit (Some m)
             (Some wf) fcb w in
  exists body (s : BitcodeShim.RustRawOStream Sink) (w1 : World Sink),
    writing_phase (BitcodeShim.had_error_ s) (BitcodeShim.pos_ s) body /\
    events_since w (BitcodeShim.sr_world b)
    = body ++ teardown (BitcodeShim.had_error_ s) fcb w1 /\
    BitcodeShim.sr_ret b = (if BitcodeShim.had_error_ s then 1 else 0).
Proof.
  intros b.
  destruct (BitcodeFacts.stream_valid emit m wf fcb w)
    as (body & s & w1 & (_ & _ & Hphase) & Hc & Ht & Hw & _ & Hr).
  fold b in Hw, Hr.
  assert (Hfcb : BitcodeShim.flush_cb_ s = fcb)
    by (unfold raw_callbacks in Hc; congruence).
  exists body, s, w1. split; [exact Hphase|]. split; [|exact Hr].
  apply events_since_app.
  now rewrite Hw, BitcodeFacts.raw_destroy_trace, Ht, Hfcb, app_assoc.
Qed.

(** C2, as the code has it.  When the target machine accepts the file type
    and every write and offset-write callback returns 0, the flush callback
    is invoked exactly once, as the last callback of the call, by the
    destructor of the stream, which runs after the entry point has read the
    latch.  The entry point therefore returns 0 and leaves the message null
    whatever the flush callback returns; a non-zero return only sets the
    latch of the stream that is being destroyed. *)
Theorem flush_failure_comes_after_result {Sink IR : Type}
        (malloc : nat -> bool)
        (tm : PwriteShim.TargetMachine IR) (m : PwriteShim.Module IR)
        (codegen : Z) (wf : rust_write_cb Sink) (pf : rust_pwrite_cb Sink)
        (scb : option (rust_seek_cb Sink)) (f : rust_flush_cb Sink)
        (msg : option (option string)) (w : World Sink) :
  let r := PwriteShim.bpf_linker_emit_to_pwrite_stream malloc (Some tm)
             (Some m) codegen (Some wf) (Some pf) scb (Some f) msg w in
  backend_refuses tm codegen (Some wf) (Some pf) scb (Some f) w = false ->
  existsb failed_write (events_since w (PwriteShim.em_world r)) = false ->
  exists body rc,
    events_since w (PwriteShim.em_world r) = body ++ [EvFlush rc] /\
    flushes body = 0%nat /\
    PwriteShim.em_ret r = 0 /\
    PwriteShim.em_message r = PwriteShim.store_message msg None /\
    option_map PwriteShim.had_error (PwriteShim.em_stream r)
    = Some (negb (rc =? 0)).
Proof.
  intros r Hacc Hok.
  destruct (emit_events malloc tm m codegen wf pf scb (Some f) msg w)
    as (body & s & w1 & Hphase & Hev & _ & Hr & Hm & Hs).
  fold r in Hev, Hr, Hm, Hs. unfold backend_refuses in Hacc.
  rewrite Hacc in Hr, Hm. simpl in Hr, Hm.
  destruct (flush_count_of_call _ _ _ (Some f) w1 Hphase) as (Hlatch & _).
  rewrite <- Hev, Hok in Hlatch. rewrite <- Hlatch in *.
  unfold teardown in Hev, Hs. simpl in Hs.
  exists body, (fst (f (sink w1))).
  split; [exact Hev|]. split; [|split; [exact Hr | split; [exact Hm|]]].
  - destruct Hphase as (Hwp & _). now apply wp_not_flush.
  - rewrite Hs. unfold failed. simpl. now rewrite orb_false_r.
Qed.

Lemma flush_failure_comes_after_result_witness :
  let w := VecSink.empty 16 0 1 in
  let r := PwriteShim.bpf_linker_emit_to_pwrite_stream VecSink.always_fits
             (Some VecSink.emitting) (Some VecSink.a_module)
             PwriteShim.LLVMObjectFile (Some VecSink.vec_write)
             (Some VecSink.vec_pwrite) None (Some VecSink.vec_flush)
             (Some None) w in
  exists body rc,
    events_since w (PwriteShim.em_world r) = body ++ [EvFlush rc] /\
    flushes body = 0%nat /\
    PwriteShim.em_ret r = 0 /\
    PwriteShim.em_message r = PwriteShim.store_message (Some None) None /\
    option_map PwriteShim.had_error (PwriteShim.em_stream r)
    = Some (negb (rc =? 0)).
Proof.
  intros w r.
  apply (flush_failure_comes_after_result VecSink.always_fits
           VecSink.emitting VecSink.a_module PwriteShim.LLVMObjectFile
           VecSink.vec_write VecSink.vec_pwrite None VecSink.vec_flush
           (Some None) w).
  - vm_compute. reflexivity.
  - vm_compute. reflexivity.
Defined.

(** C2 as stated fails: the target machine accepts, both writes are
    accepted by the sink, the flush callback returns 1, and the entry point
    returns 0 with a null message. *)
Lemma flush_failure_is_reported_as_success :
  let w := VecSink.empty 16 0 1 in
  let r := PwriteShim.bpf_linker_emit_to_pwrite_stream VecSink.always_fits
             (Some VecSink.emitting) (Some VecSink.a_module)
             PwriteShim.LLVMObjectFile (Some VecSink.vec_write)
             (Some VecSink.vec_pwrite) None (Some VecSink.vec_flush)
             (Some None) w in
  trace (PwriteShim.em_world r)
  = [EvWrite [x7f; x45; x4c; x46; x00; x00; x00; x00] 0;
     EvPwrite [x01; x02; x03; x04] 4 0;
     EvFlush 1] /\
  option_map PwriteShim.had_error (PwriteShim.em_stream r) = Some true /\
  PwriteShim.em_ret r = 0 /\
  PwriteShim.em_message r = Some None.
Proof. vm_compute. repeat split. Qed.

(** C5, as the code has it.  When the target machine refuses the file type
    before any callback has been invoked, the entry point returns 1 and
    stores the cannot-emit text in the message slot; no write, offset-write
    or reposition callback is invoked during the call.  The stream exists by
    then and its latch is clear, so its destructor invokes the flush
    callback, once, when one was supplied. *)
Theorem refusal_invokes_only_flush {Sink IR : Type}
        (malloc : nat -> bool)
        (tm : PwriteShim.TargetMachine IR) (m : PwriteShim.Module IR)
        (codegen : Z) (wf : rust_write_cb Sink) (pf : rust_pwrite_cb Sink)
        (scb : option (rust_seek_cb Sink)) (fcb : option (rust_flush_cb Sink))
        (msg : option (option string)) (w : World Sink) :
  let r := PwriteShim.bpf_linker_emit_to_pwrite_stream malloc (Some tm)
             (Some m) codegen (Some wf) (Some pf) scb fcb msg w in
  let st := setup tm codegen (Some wf) (Some pf) scb fcb w in
  fst (fst st) = true ->
  trace (snd st) = trace w ->
  PwriteShim.em_ret r = 1 /\
  PwriteShim.em_message r
  = PwriteShim.store_message msg
      (PwriteShim.dup_cstr malloc (Some PwriteShim.msg_cannot_emit)) /\
  forallb is_flush (events_since w (PwriteShim.em_world r)) = true /\
  length (events_since w (PwriteShim.em_world r))
  = match fcb with Some _ => 1%nat | None => 0%nat end.
Proof.
  intros r st Hrefused Hquiet.
  destruct (emit_events malloc tm m codegen wf pf scb fcb msg w)
    as (body & s & w1 & Hphase & Hev & Hpre & Hr & Hm & _).
  fold r in Hev, Hr, Hm. fold st in Hpre, Hr, Hm.
  rewrite Hrefused in Hr, Hm. simpl in Hr, Hm.
  specialize (Hpre Hrefused). rewrite Hquiet in Hpre.
  assert (Hbody : body = []).
  { apply (app_inv_head (trace w)). now rewrite app_nil_r. }
  subst body. destruct Hphase as (_ & _ & Hlatch & _). simpl in Hlatch.
  rewrite Hlatch in Hev. simpl in Hev. rewrite Hev.
  split; [exact Hr | split; [exact Hm|]].
  unfold teardown. now destruct fcb.
Qed.

Lemma refusal_invokes_only_flush_witness :
  let w := VecSink.empty 16 0 0 in
  let r := PwriteShim.bpf_linker_emit_to_pwrite_stream VecSink.always_fits
             (Some VecSink.refusing) (Some VecSink.a_module)
             PwriteShim.LLVMAssemblyFile (Some VecSink.vec_write)
             (Some VecSink.vec_pwrite) None (Some VecSink.vec_flush)
             (Some None) w in
  PwriteShim.em_ret r = 1 /\
  PwriteShim.em_message r = Some (Some PwriteShim.msg_cannot_emit) /\
  forallb is_flush (events_since w (PwriteShim.em_world r)) = true /\
  length (events_since w (PwriteShim.em_world r)) = 1%nat.
Proof.
  intros w r.
  apply (refusal_invokes_only_flush VecSink.always_fits VecSink.refusing
           VecSink.a_module PwriteShim.LLVMAssemblyFile VecSink.vec_write
           VecSink.vec_pwrite None (Some VecSink.vec_flush) (Some None) w).
  - reflexivity.
  - reflexivity.
Defined.

(** C5 as stated fails: the target machine refuses at once, and the flush
    callback is nevertheless invoked when the stream is destroyed. *)
Lemma refusal_still_flushes :
  let w := VecSink.empty 16 0 0 in
  let r := PwriteShim.bpf_linker_emit_to_pwrite_stream VecSink.always_fits
             (Some VecSink.refusing) (Some VecSink.a_module)
             PwriteShim.LLVMObjectFile (Some VecSink.vec_write)
             (Some VecSink.vec_pwrite) None (Some VecSink.vec_flush)
             (Some None) w in
  PwriteShim.addPassesToEmitFile VecSink.refusing PwriteShim.ObjectFile
  = PwriteShim.PRet true /\
  PwriteShim.em_ret r = 1 /\
  PwriteShim.em_message r = Some (Some PwriteShim.msg_cannot_emit) /\
  trace (PwriteShim.em_world r) = [EvFlush 0].
Proof. vm_compute. repeat split. Qed.

(** C8.  In a call of any of the three entry points that constructs its
    stream with a flush callback, that callback is invoked exactly once when
    no write or offset-write callback returned non-zero, and not at all
    otherwise; when it is invoked, it is the last callback of the call. *)
Theorem flush_exactly_once_unless_latched {Sink IR Module : Type}
        (malloc : nat -> bool)
        (tm : PwriteShim.TargetMachine IR) (m : PwriteShim.Module IR)
        (codegen : Z) (emit : Module -> BitcodeShim.ostream_prog)
        (m' : Module)
        (wf : rust_write_cb Sink) (pf : rust_pwrite_cb Sink)
        (scb : option (rust_seek_cb Sink)) (f : rust_flush_cb Sink)
        (msg : option (option string)) (w : World Sink) :
  let once (evs : list Event) :=
    flushes evs = (if existsb failed_write evs then 0%nat else 1%nat) /\
    (forall pre e post,
        evs = pre ++ e :: post -> is_flush e = true -> post = []) in
  once (events_since w
          (PwriteShim.em_world
             (PwriteShim.bpf_linker_emit_to_pwrite_stream malloc (Some tm)
                (Some m) codegen (Some wf) (Some pf) scb (Some f) msg w))) /\
  once (events_since w
          (BitcodeShim.sr_world
             (BitcodeShim.bpf_linker_write_bitcode_to_stream emit (Some m')
                (Some wf) (Some f) w))) /\
  once (events_since w
          (BitcodeShim.sr_world
             (BitcodeShim.bpf_linker_print_ir_to_stream emit (Some m')
                (Some wf) (Some f) w))).
Proof.
  intros once.
  assert (Hraw : once (events_since w
            (BitcodeShim.sr_world
               (BitcodeShim.bpf_linker_write_bitcode_to_stream emit (Some m')
                  (Some wf) (Some f) w)))).
  { destruct (stream_events emit m' wf (Some f) w)
      as (body & s & w1 & Hphase & Hev & _).
    destruct (flush_count_of_call _ _ _ (Some f) w1 Hphase)
      as (Hlatch & Hcount & Hlast).
    subst once. cbv beta. rewrite Hev, Hlatch. split; assumption. }
  split; [|split; [exact Hraw | exact Hraw]].
  destruct (emit_events malloc tm m codegen wf pf scb (Some f) msg w)
    as (body & s & w1 & Hphase & Hev & _).
  destruct (flush_count_of_call _ _ _ (Some f) w1 Hphase)
    as (Hlatch & Hcount & Hlast).
  subst once. cbv beta. rewrite Hev, Hlatch. split; assumption.
Qed.

(** C9, as the code has it.  When a mandatory argument is null the
    random-access entry point returns before it touches the module.  In
    every other call it sets the module's data layout to the target
    machine's before anything is emitted: the pass pipeline is run on the
    module that already has that layout, so the call sees the caller's
    module only through its re-laid-out form, and the module the caller is
    left with is what the pipeline made of that module, or that module
    itself when the target machine refuses the file type.  This holds
    whatever the call returns.  With a pipeline that leaves the layout
    alone, the caller's module has the target machine's layout after the
    call, and a module that had another layout is not what it was. *)
Theorem layout_is_set_before_emission {Sink IR : Type}
        (malloc : nat -> bool)
        (T : option (PwriteShim.TargetMachine IR))
        (M : option (PwriteShim.Module IR))
        (wcb : option (rust_write_cb Sink))
        (pwcb : option (rust_pwrite_cb Sink))
        (tm : PwriteShim.TargetMachine IR) (m : PwriteShim.Module IR)
        (codegen : Z) (wf : rust_write_cb Sink) (pf : rust_pwrite_cb Sink)
        (scb : option (rust_seek_cb Sink)) (fcb : option (rust_flush_cb Sink))
        (msg : option (option string)) (w : World Sink) :
  let dl := PwriteShim.createDataLayout tm in
  let m1 := PwriteShim.setDataLayout m dl in
  let r := PwriteShim.bpf_linker_emit_to_pwrite_stream malloc (Some tm)
             (Some m) codegen (Some wf) (Some pf) scb fcb msg w in
  let st := setup tm codegen (Some wf) (Some pf) scb fcb w in
  let run := PwriteShim.run_prog
               (PwriteShim.run_passes tm (file_type codegen) m1)
               (snd (fst st)) (snd st) in
  (pwrite_args_missing T M wcb pwcb = true ->
   PwriteShim.em_module
     (PwriteShim.bpf_linker_emit_to_pwrite_stream malloc T M codegen
        wcb pwcb scb fcb msg w) = M) /\
  PwriteShim.data_layout m1 = dl /\
  r = PwriteShim.bpf_linker_emit_to_pwrite_stream malloc (Some tm)
        (Some m1) codegen (Some wf) (Some pf) scb fcb msg w /\
  (fst (fst st) = true ->
   PwriteShim.em_ret r = 1 /\ PwriteShim.em_module r = Some m1) /\
  (fst (fst st) = false ->
   PwriteShim.em_module r = Some (fst (fst run)) /\
   PwriteShim.em_ret r
   = (if PwriteShim.had_error (snd (fst run)) then 1 else 0) /\
   PwriteShim.em_world r
   = snd (PwriteShim.destroy (snd (fst run)) (snd run))) /\
  ((forall ft m0,
       returns (fun m2 => PwriteShim.data_layout m2
                          = PwriteShim.data_layout m0)
               (PwriteShim.run_passes tm ft m0)) ->
   (exists m2, PwriteShim.em_module r = Some m2 /\
               PwriteShim.data_layout m2 = dl) /\
   (PwriteShim.data_layout m <> dl -> PwriteShim.em_module r <> Some m)).
Proof.
  intros dl m1 r st run.
  split.
  { intros Hmiss. unfold PwriteShim.bpf_linker_emit_to_pwrite_stream.
    destruct T, M, wcb, pwcb; try discriminate Hmiss; reflexivity. }
  split; [reflexivity|]. split; [reflexivity|].
  assert (Hshape :
            (fst (fst st) = true ->
             PwriteShim.em_ret r = 1 /\ PwriteShim.em_module r = Some m1) /\
            (fst (fst st) = false ->
             PwriteShim.em_module r = Some (fst (fst run)) /\
             PwriteShim.em_ret r
             = (if PwriteShim.had_error (snd (fst run)) then 1 else 0) /\
             PwriteShim.em_world r
             = snd (PwriteShim.destroy (snd (fst run)) (snd run)))).
  { subst r run. unfold PwriteShim.bpf_linker_emit_to_pwrite_stream.
    fold (file_type codegen). fold dl. fold m1.
    fold (setup tm codegen (Some wf) (Some pf) scb fcb w). fold st.
    destruct st as [[refused s1] w1]. simpl fst. simpl snd.
    destruct refused.
    - split; [intros _ | discriminate].
      destruct (PwriteShim.destroy s1 w1) as [s2 w2]. now split.
    - split; [discriminate | intros _].
      destruct (PwriteShim.run_prog _ s1 w1) as [[m2 s2] w2].
      simpl fst. simpl snd. unfold PwriteShim.flush.
      destruct (PwriteShim.had_error s2);
        destruct (PwriteShim.destroy s2 w2) as [s3 w3]; now repeat split. }
  destruct Hshape as [Hrefused Hran].
  split; [exact Hrefused|]. split; [exact Hran|].
  intros Hkeep.
  assert (Hlayout : exists m2, PwriteShim.em_module r = Some m2 /\
                               PwriteShim.data_layout m2 = dl).
  { destruct (fst (fst st)) eqn:Href.
    - destruct (Hrefused eq_refl) as [_ Hm]. exists m1. now split.
    - destruct (Hran eq_refl) as (Hm & _). exists (fst (fst run)).
      split; [exact Hm|]. subst run.
      now rewrite (PwriteFacts.run_prog_returns _ _ (Hkeep _ m1)). }
  split; [exact Hlayout|].
  intros Hne Heq. destruct Hlayout as (m2 & Hm & Hdl).
  rewrite Hm in Heq. injection Heq as Heq. subst m2. contradiction.
Qed.

Lemma layout_is_set_before_emission_witness :
  let r := PwriteShim.bpf_linker_emit_to_pwrite_stream VecSink.always_fits
             (Some VecSink.emitting) (Some VecSink.a_module)
             PwriteShim.LLVMObjectFile (Some VecSink.vec_write)
             (Some VecSink.vec_pwrite) None (Some VecSink.vec_flush)
             (Some None) (VecSink.empty 4 0 0) in
  PwriteShim.em_module
    (PwriteShim.bpf_linker_emit_to_pwrite_stream VecSink.always_fits
       (Some VecSink.emitting) (Some VecSink.a_module)
       PwriteShim.LLVMObjectFile (Some VecSink.vec_write) None None
       (Some VecSink.vec_flush) (Some None) (VecSink.empty 4 0 0))
  = Some VecSink.a_module /\
  PwriteShim.em_ret r = 1 /\
  (exists m2, PwriteShim.em_module r = Some m2 /\
              PwriteShim.data_layout m2 = VecSink.layout) /\
  PwriteShim.em_module r <> Some VecSink.a_module.
Proof.
  intros r.
  pose proof (layout_is_set_before_emission VecSink.always_fits
                (Some VecSink.emitting) (Some VecSink.a_module)
                (Some VecSink.vec_write) None
                VecSink.emitting VecSink.a_module PwriteShim.LLVMObjectFile
                VecSink.vec_write VecSink.vec_pwrite None
                (Some VecSink.vec_flush) (Some None) (VecSink.empty 4 0 0))
    as (Hmiss & _ & _ & _ & Hran & Hkeep).
  destruct (Hran eq_refl) as (_ & Hret & _).
  destruct (Hkeep (fun ft m0 => eq_refl)) as (Hlayout & Hchanged).
  split; [exact (Hmiss eq_refl)|]. split; [exact Hret|].
  split; [exact Hlayout|]. apply Hchanged. discriminate.
Defined.

(** C9 as stated fails: with a null [pwrite_cb] the entry point returns 1
    and the caller's module keeps its own data layout, which is not the
    target machine's. *)
Lemma null_callback_leaves_module_untouched :
  let r := PwriteShim.bpf_linker_emit_to_pwrite_stream VecSink.always_fits
             (Some VecSink.emitting) (Some VecSink.a_module)
             PwriteShim.LLVMObjectFile (Some VecSink.vec_write) None None
             (Some VecSink.vec_flush) (Some None) (VecSink.empty 16 0 0) in
  PwriteShim.em_ret r = 1 /\
  PwriteShim.em_module r = Some VecSink.a_module /\
  PwriteShim.data_layout VecSink.a_module
  <> PwriteShim.createDataLayout VecSink.emitting.
Proof. vm_compute. repeat split. discriminate. Qed.

(** C10.  With a non-null [error_message] the entry point first stores a
    null pointer in the caller's slot, so what the slot held before never
    matters.  When the entry point returns 0 the slot holds null; when it
    holds a message the entry point returned 1 and the message is one of the
    three texts of the failure paths (a failure path leaves null when
    [malloc] fails). *)
Theorem message_is_null_unless_failure {Sink IR : Type}
        (malloc : nat -> bool)
        (T : option (PwriteShim.TargetMachine IR))
        (M : option (PwriteShim.Module IR)) (codegen : Z)
        (wcb : option (rust_write_cb Sink))
        (pwcb : option (rust_pwrite_cb Sink))
        (scb : option (rust_seek_cb Sink)) (fcb : option (rust_flush_cb Sink))
        (old : option string) (w : World Sink) :
  let r := PwriteShim.bpf_linker_emit_to_pwrite_stream malloc T M codegen
             wcb pwcb scb fcb (Some old) w in
  r = PwriteShim.bpf_linker_emit_to_pwrite_stream malloc T M codegen
        wcb pwcb scb fcb (Some None) w /\
  (PwriteShim.em_ret r = 0 -> PwriteShim.em_message r = Some None) /\
  (forall text, PwriteShim.em_message r = Some (Some text) ->
                PwriteShim.em_ret r = 1 /\
                (text = PwriteShim.msg_invalid \/
                 text = PwriteShim.msg_cannot_emit \/
                 text = PwriteShim.msg_sink)).
Proof.
  intros r. split; [reflexivity|].
  assert (Hdup : forall t text,
             PwriteShim.store_message (Some old)
               (PwriteShim.dup_cstr malloc (Some t)) = Some (Some text) ->
             text = t).
  { intros t text. simpl. destruct (negb (malloc _)); congruence. }
  destruct (pwrite_args_missing T M wcb pwcb) eqn:Hmiss.
  - assert (Hr : r = PwriteShim.mkEmitResult 1
                       (PwriteShim.store_message (Some old)
                          (PwriteShim.dup_cstr malloc
                             (Some PwriteShim.msg_invalid))) M None w).
    { subst r. unfold PwriteShim.bpf_linker_emit_to_pwrite_stream.
      destruct T, M, wcb, pwcb; try discriminate Hmiss; reflexivity. }
    rewrite Hr. simpl PwriteShim.em_ret. simpl PwriteShim.em_message.
    split; [discriminate|]. intros text Ht. split; [reflexivity|].
    left. now apply Hdup.
  - destruct T as [tm|], M as [m|], wcb as [wf|], pwcb as [pf|];
      try discriminate Hmiss.
    destruct (emit_events malloc tm m codegen wf pf scb fcb (Some old) w)
      as (body & s & w1 & _ & _ & _ & Hr & Hm & _).
    fold r in Hr, Hm. rewrite Hr, Hm.
    destruct (fst (fst (setup tm codegen (Some wf) (Some pf) scb fcb w)));
      [|destruct (PwriteShim.had_error_ s)]; simpl orb; cbv iota.
    + split; [discriminate|]. intros text Ht. split; [reflexivity|].
      right. left. now apply Hdup.
    + split; [discriminate|]. intros text Ht. split; [reflexivity|].
      right. right. now apply Hdup.
    + split; [reflexivity|]. discriminate.
Qed.

Lemma message_is_null_unless_failure_witness :
  let r := PwriteShim.bpf_linker_emit_to_pwrite_stream VecSink.always_fits
             (Some VecSink.emitting) (Some VecSink.a_module)
             PwriteShim.LLVMObjectFile (Some VecSink.vec_write)
             (Some VecSink.vec_pwrite) None (Some VecSink.vec_flush)
             (Some (Some "stale"%string)) (VecSink.empty 16 0 0) in
  PwriteShim.em_ret r = 0 /\ PwriteShim.em_message r = Some None.
Proof.
  intros r. split; [reflexivity|].
  apply (proj1 (proj2
           (message_is_null_unless_failure VecSink.always_fits
              (Some VecSink.emitting) (Some VecSink.a_module)
              PwriteShim.LLVMObjectFile (Some VecSink.vec_write)
              (Some VecSink.vec_pwrite) None (Some VecSink.vec_flush)
              (Some "stale"%string) (VecSink.empty 16 0 0)))).
  reflexivity.
Defined.

Lemma flush_exactly_once_unless_latched_witness :
  let w := VecSink.empty 16 0 0 in
  flushes (events_since w
             (PwriteShim.em_world
                (PwriteShim.bpf_linker_emit_to_pwrite_stream
                   VecSink.always_fits (Some VecSink.emitting)
                   (Some VecSink.a_module) PwriteShim.LLVMObjectFile
                   (Some VecSink.vec_write) (Some VecSink.vec_pwrite) None
                   (Some VecSink.vec_flush) (Some None) w))) = 1%nat /\
  flushes (events_since w
             (BitcodeShim.sr_world
                (BitcodeShim.bpf_linker_print_ir_to_stream VecSink.text_of
                   (Some tt) (Some VecSink.vec_write)
                   (Some VecSink.vec_flush) w))) = 1%nat.
Proof.
  intros w.
  pose proof (flush_exactly_once_unless_latched VecSink.always_fits
                VecSink.emitting VecSink.a_module PwriteShim.LLVMObjectFile
                VecSink.text_of tt VecSink.vec_write VecSink.vec_pwrite None
                VecSink.vec_flush (Some None) w)
    as ((Hp & _) & _ & (Ht & _)).
  exact (conj Hp Ht).
Defined.

(** ** The scenarios of the specification, run on the byte store *)

(** S1: two accepted forward writes of 10 and 20 bytes; the position is 30,
    the flush callback runs once, the result is 0. *)
Example scenario_append_only :
  let emit (_ : unit) :=
    BitcodeShim.OWrite (repeat x41 10)
      (BitcodeShim.OWrite (repeat x42 20) BitcodeShim.ORet) in
  let w := VecSink.empty 64 0 0 in
  let b := BitcodeShim.bpf_linker_write_bitcode_to_stream emit (Some tt)
             (Some VecSink.vec_write) (Some VecSink.vec_flush) w in
  BitcodeShim.sr_ret b = 0 /\
  option_map BitcodeShim.current_pos (BitcodeShim.sr_stream b) = Some 30 /\
  flushes (trace (BitcodeShim.sr_world b)) = 1%nat /\
  length (VecSink.bytes (sink (BitcodeShim.sr_world b))) = 30%nat.
Proof. vm_compute. repeat split. Qed.

(** S2: four bytes appended, then four bytes written at offset 100; the
    store has 104 bytes, the gap is zero-filled, the position is still 4. *)
Example scenario_offset_write_beyond_end :
  let s0 := PwriteShim.new (Some VecSink.vec_write) (Some VecSink.vec_pwrite)
              None None in
  let run := Ops.run_ops [Ops.OpWrite [x01; x02; x03; x04];
                          Ops.OpPwrite [x0a; x0b; x0c; x0d] 100] s0
               (VecSink.empty 200 0 0) in
  PwriteShim.current_pos (fst run) = 4 /\
  length (VecSink.bytes (sink (snd run))) = 104%nat /\
  firstn 96 (skipn 4 (VecSink.bytes (sink (snd run)))) = repeat x00 96.
Proof. vm_compute. repeat split. Qed.

(** S3: the sink refuses the second forward write; nothing is invoked after
    it and the entry point returns 1. *)
Example scenario_second_write_refused :
  let tm := PwriteShim.mkTargetMachine VecSink.layout
              (fun _ => PwriteShim.PRet false)
              (fun _ m =>
                 PwriteShim.PWrite [x01; x02]
                   (PwriteShim.PWrite [x03; x04]
                      (PwriteShim.PWrite [x05] (PwriteShim.PRet m)))) in
  let r := PwriteShim.bpf_linker_emit_to_pwrite_stream VecSink.always_fits
             (Some tm) (Some VecSink.a_module) PwriteShim.LLVMObjectFile
             (Some VecSink.vec_write) (Some VecSink.vec_pwrite) None
             (Some VecSink.vec_flush) (Some None) (VecSink.empty 3 0 0) in
  trace (PwriteShim.em_world r)
  = [EvWrite [x01; x02] 0; EvWrite [x03; x04] 1] /\
  PwriteShim.em_ret r = 1 /\
  PwriteShim.em_message r = Some (Some PwriteShim.msg_sink).
Proof. vm_compute. repeat split. Qed.

(** * Further properties of the two stream classes *)

Section StreamLife.
Context {Sink : Type}.
Import Ops Forward.

Lemma size_zero_iff (data : list byte) :
  (Z.of_nat (length data) =? 0) = negb (has_bytes data).
Proof. now destruct data. Qed.

(** Writes and offset-writes on a latched stream change nothing at all. *)
Lemma run_ops_latched_id ops :
  forall (s : PwriteShim.RustPwriteStream Sink) (w : World Sink),
    seek_free ops = true -> PwriteShim.had_error_ s = true ->
    run_ops ops s w = (s, w).
Proof.
  induction ops as [|o ops IH]; intros s w Hfree H; simpl; [reflexivity|].
  simpl in Hfree. apply andb_prop in Hfree. destruct Hfree as [Ho Hfree].
  destruct o as [d | d off | off]; simpl in *; [ | | discriminate].
  - rewrite PwriteFacts.write_impl_latched by exact H. now apply IH.
  - rewrite PwriteFacts.pwrite_impl_latched by exact H. now apply IH.
Qed.

(** One write or offset-write on a stream with a clear latch and both
    mandatory callbacks: either the call carries no byte and nothing
    happens, or exactly one callback invocation with the call's own
    arguments is recorded and the latch tells whether it failed. *)
Lemma run_op_forwards o (s : PwriteShim.RustPwriteStream Sink) w :
  is_seek_op o = false ->
  PwriteShim.write_cb_ s <> None -> PwriteShim.pwrite_cb_ s <> None ->
  PwriteShim.had_error_ s = false ->
  (has_data o = false /\ run_op o s w = (s, w)) \/
  (has_data o = true /\
   exists e,
     trace (snd (run_op o s w)) = trace w ++ [e] /\
     op_of_event e = Some o /\
     PwriteShim.had_error_ (fst (run_op o s w)) = negb (status e =? 0) /\
     callbacks (fst (run_op o s w)) = callbacks s).
Proof.
  intros Ho Hw Hp Hclear.
  destruct o as [d | d off | off]; simpl in *; [ | | discriminate].
  - unfold PwriteShim.write_impl. rewrite Hclear, size_zero_iff. simpl.
    destruct (has_bytes d); simpl; [right | left; auto].
    split; [reflexivity|].
    destruct (PwriteShim.write_cb_ s) as [cb|] eqn:Hcb; [|congruence].
    pose proof (call_write_trace cb d w) as Ht.
    destruct (call_write cb d w) as [rc w1]. simpl in Ht.
    exists (EvWrite d rc). simpl.
    destruct (rc =? 0); simpl; rewrite ?Hclear; auto.
  - unfold PwriteShim.pwrite_impl. rewrite Hclear, size_zero_iff. simpl.
    destruct (has_bytes d); simpl; [right | left; auto].
    split; [reflexivity|].
    destruct (PwriteShim.pwrite_cb_ s) as [cb|] eqn:Hcb; [|congruence].
    pose proof (call_pwrite_trace cb d off w) as Ht.
    destruct (call_pwrite cb d off w) as [rc w1]. simpl in Ht.
    exists (EvPwrite d off rc). simpl.
    destruct (rc =? 0); simpl; rewrite ?Hclear; auto.
Qed.

Lemma run_ops_forwards ops :
  forall (s : PwriteShim.RustPwriteStream Sink) (w : World Sink),
    seek_free ops = true ->
    PwriteShim.write_cb_ s <> None -> PwriteShim.pwrite_cb_ s <> None ->
    PwriteShim.had_error_ s = false ->
    exists evs,
      trace (snd (run_ops ops s w)) = trace w ++ evs /\
      map op_of_event evs
      = map Some (firstn (length evs) (forwarded ops)) /\
      Forall (fun e => status e = 0) (removelast evs) /\
      (PwriteShim.had_error_ (fst (run_ops ops s w)) = false ->
       length evs = length (forwarded ops) /\
       Forall (fun e => status e = 0) evs) /\
      (PwriteShim.had_error_ (fst (run_ops ops s w)) = true ->
       exists pre e, evs = pre ++ [e] /\ status e <> 0).
Proof.
  induction ops as [|o ops IH]; intros s w Hfree Hw Hp Hclear; simpl.
  - exists []. rewrite app_nil_r. simpl.
    split; [reflexivity|]. split; [reflexivity|]. split; [constructor|].
    split; [intros _; split; [reflexivity | constructor] | congruence].
  - simpl in Hfree. apply andb_prop in Hfree. destruct Hfree as [Ho Hfree].
    apply negb_true_iff in Ho.
    destruct (run_op_forwards o s w Ho Hw Hp Hclear)
      as [[Hnone Hid] | [Hsome (e & Ht & He & Hlatch & Hc)]].
    + rewrite Hid. unfold forwarded. simpl. rewrite Hnone.
      now apply IH.
    + unfold forwarded. simpl. rewrite Hsome. fold (forwarded ops).
      destruct (run_op o s w) as [s1 w1]. simpl in Ht, Hlatch, Hc.
      assert (Hw1 : PwriteShim.write_cb_ s1 <> None)
        by (unfold callbacks in Hc; congruence).
      assert (Hp1 : PwriteShim.pwrite_cb_ s1 <> None)
        by (unfold callbacks in Hc; congruence).
      destruct (status e =? 0) eqn:Hrc; simpl in Hlatch.
      * apply Z.eqb_eq in Hrc.
        destruct (IH s1 w1 Hfree Hw1 Hp1 Hlatch)
          as (evs & Ht' & Hm & Hinit & Hall & Hfail).
        exists (e :: evs). rewrite Ht', Ht, <- app_assoc. simpl length.
        split; [reflexivity|].
        split; [simpl; now rewrite He, Hm|].
        split.
        { destruct evs as [|e' evs]; [constructor|].
          change (removelast (e :: e' :: evs))
            with (e :: removelast (e' :: evs)).
          now constructor. }
        split.
        { intros Hend. destruct (Hall Hend) as [Hlen Hok].
          split; [simpl; now rewrite Hlen | now constructor]. }
        intros Hend. destruct (Hfail Hend) as (pre & e' & -> & Hne).
        exists (e :: pre), e'. now split.
      * apply Z.eqb_neq in Hrc.
        rewrite (run_ops_latched_id ops s1 w1 Hfree Hlatch). simpl.
        exists [e]. split; [exact Ht|]. split; [simpl; now rewrite He|].
        split; [constructor|]. split; [congruence|].
        intros _. exists [], e. now split.
Qed.

End StreamLife.

(** X1.  Nothing is buffered, split, merged or reordered.  On a fresh stream
    with both mandatory callbacks, a sequence of forward writes and
    offset-writes produces one callback invocation per call that carries at
    least one byte, in call order and with that call's bytes and offset,
    up to and including the first invocation that fails.  When the latch is
    clear at the end every such call was forwarded and every invocation
    returned 0; when it is set, at least one callback was invoked, the last
    invocation returned non-zero and every one before it returned 0. *)
Theorem calls_are_forwarded_one_to_one {Sink : Type}
        (wf : rust_write_cb Sink) (pf : rust_pwrite_cb Sink)
        (scb : option (rust_seek_cb Sink)) (fcb : option (rust_flush_cb Sink))
        (ops : list Ops.StreamOp) (w : World Sink) :
  let s0 := PwriteShim.new (Some wf) (Some pf) scb fcb in
  let s' := fst (Ops.run_ops ops s0 w) in
  let evs := events_since w (snd (Ops.run_ops ops s0 w)) in
  Ops.seek_free ops = true ->
  map Forward.op_of_event evs
  = map Some (firstn (length evs) (Forward.forwarded ops)) /\
  Forall (fun e => status e = 0) (removelast evs) /\
  (PwriteShim.had_error s' = false ->
   map Forward.op_of_event evs = map Some (Forward.forwarded ops) /\
   Forall (fun e => status e = 0) evs) /\
  (PwriteShim.had_error s' = true ->
   exists pre e, evs = pre ++ [e] /\ status e <> 0).
Proof.
  intros s0 s' evs Hfree.
  destruct (run_ops_forwards ops s0 w Hfree)
    as (new & Ht & Hm & Hinit & Hall & Hfail);
    try discriminate; try reflexivity.
  subst evs. rewrite (events_since_app _ _ _ Ht).
  split; [exact Hm|]. split; [exact Hinit|]. split; [|exact Hfail].
  intros Hend. destruct (Hall Hend) as [Hlen Hok].
  split; [|exact Hok]. rewrite Hm, Hlen. now rewrite firstn_all.
Qed.

Lemma calls_are_forwarded_one_to_one_witness :
  let ops := [Ops.OpWrite [x01; x02]; Ops.OpWrite [];
              Ops.OpPwrite [x0a] 0; Ops.OpWrite [x03]] in
  let s0 := PwriteShim.new (Some VecSink.vec_write) (Some VecSink.vec_pwrite)
              None None in
  let evs := events_since (VecSink.empty 8 0 0)
               (snd (Ops.run_ops ops s0 (VecSink.empty 8 0 0))) in
  map Forward.op_of_event evs
  = [Some (Ops.OpWrite [x01; x02]); Some (Ops.OpPwrite [x0a] 0);
     Some (Ops.OpWrite [x03])].
Proof.
  intros ops s0 evs.
  exact (proj1 (proj1 (proj2 (proj2
           (calls_are_forwarded_one_to_one VecSink.vec_write
              VecSink.vec_pwrite None None ops
              (VecSink.empty 8 0 0) eq_refl))) eq_refl)).
Defined.

Section StreamLifeMore.
Context {Sink : Type}.
Import Ops Forward.

Lemma run_ops_app pre : forall post (s : PwriteShim.RustPwriteStream Sink) w,
  run_ops (pre ++ post) s w
  = run_ops post (fst (run_ops pre s w)) (snd (run_ops pre s w)).
Proof.
  induction pre as [|o pre IH]; intros post s w; simpl; [reflexivity|].
  destruct (run_op o s w) as [s1 w1]. apply IH.
Qed.

Lemma run_writes_as_fold ds :
  forall (s : PwriteShim.RustPwriteStream Sink) w,
    PwriteShim.write_cb_ s = None ->
    snd (run_ops (map OpWrite ds) s w) = w /\
    PwriteShim.had_error_ (fst (run_ops (map OpWrite ds) s w))
    = PwriteShim.had_error_ s || existsb has_bytes ds /\
    PwriteShim.pos_ (fst (run_ops (map OpWrite ds) s w)) = PwriteShim.pos_ s.
Proof.
  induction ds as [|d ds IH]; intros s w Hnull; simpl.
  - now rewrite orb_false_r.
  - unfold PwriteShim.write_impl. rewrite size_zero_iff, Hnull.
    destruct (PwriteShim.had_error_ s) eqn:He; simpl.
    + destruct (IH s w Hnull) as (H1 & H2 & H3). now rewrite He in H2.
    + destruct (has_bytes d); simpl.
      * destruct (IH (PwriteShim.set_error s) w Hnull) as (H1 & H2 & H3).
        auto.
      * destruct (IH s w Hnull) as (H1 & H2 & H3). now rewrite He in H2.
Qed.

Lemma raw_run_writes_null ds :
  forall (t : BitcodeShim.RustRawOStream Sink) w,
    BitcodeShim.write_cb_ t = None ->
    snd (run_writes ds t w) = w /\
    BitcodeShim.had_error_ (fst (run_writes ds t w))
    = BitcodeShim.had_error_ t || existsb has_bytes ds /\
    BitcodeShim.pos_ (fst (run_writes ds t w)) = BitcodeShim.pos_ t.
Proof.
  induction ds as [|d ds IH]; intros t w Hnull; simpl.
  - now rewrite orb_false_r.
  - unfold BitcodeShim.write_impl. rewrite size_zero_iff, Hnull.
    destruct (BitcodeShim.had_error_ t) eqn:He; simpl.
    + destruct (IH t w Hnull) as (H1 & H2 & H3). now rewrite He in H2.
    + destruct (has_bytes d); simpl.
      * destruct (IH (BitcodeShim.set_error t) w Hnull) as (H1 & H2 & H3).
        auto.
      * destruct (IH t w Hnull) as (H1 & H2 & H3). now rewrite He in H2.
Qed.

(** One forward write keeps the two classes in step. *)
Lemma write_impl_same_state d (t : BitcodeShim.RustRawOStream Sink)
      (s : PwriteShim.RustPwriteStream Sink) w :
  same_state t s ->
  same_state (fst (BitcodeShim.write_impl d t w))
             (fst (PwriteShim.write_impl d s w)) /\
  snd (BitcodeShim.write_impl d t w) = snd (PwriteShim.write_impl d s w).
Proof.
  intros (Hw & Hf & Hp & He).
  unfold BitcodeShim.write_impl, PwriteShim.write_impl.
  rewrite He, Hw, Hp.
  destruct (PwriteShim.had_error_ s || _);
    [split; [unfold same_state; simpl; repeat split;
             first [assumption | reflexivity]
            | reflexivity]|].
  destruct (PwriteShim.write_cb_ s) as [cb|] eqn:Hcb;
    [|split; [unfold same_state; simpl; repeat split;
             first [assumption | reflexivity | congruence]
             | reflexivity]].
  destruct (call_write cb d w) as [rc w1].
  destruct (negb (rc =? 0));
    (split; [unfold same_state; simpl; repeat split;
             first [assumption | reflexivity | congruence]
            | reflexivity]).
Qed.

Lemma run_writes_same_state ds :
  forall (t : BitcodeShim.RustRawOStream Sink)
         (s : PwriteShim.RustPwriteStream Sink) w,
    same_state t s ->
    same_state (fst (run_writes ds t w))
               (fst (run_ops (map OpWrite ds) s w)) /\
    snd (run_writes ds t w) = snd (run_ops (map OpWrite ds) s w).
Proof.
  induction ds as [|d ds IH]; intros t s w Hsame; simpl; [auto|].
  destruct (write_impl_same_state d t s w Hsame) as [Hs Hw].
  destruct (BitcodeShim.write_impl d t w) as [t1 w1].
  destruct (PwriteShim.write_impl d s w) as [s1 w1']. simpl in Hs, Hw.
  subst w1'. now apply IH.
Qed.

End StreamLifeMore.

(** X2.  Everything after a failure is ignored.  If the latch is set after
    some calls on a [RustPwriteStream], any further forward writes and
    offset-writes leave the stream object (position included) and the world
    (sink and trace) exactly as they were. *)
Theorem calls_after_failure_change_nothing {Sink : Type}
        (pre post : list Ops.StreamOp)
        (s : PwriteShim.RustPwriteStream Sink) (w : World Sink) :
  Ops.seek_free post = true ->
  PwriteShim.had_error (fst (Ops.run_ops pre s w)) = true ->
  Ops.run_ops (pre ++ post) s w = Ops.run_ops pre s w.
Proof.
  intros Hfree Hlatched. rewrite run_ops_app.
  rewrite run_ops_latched_id by assumption.
  now destruct (Ops.run_ops pre s w).
Qed.

Lemma calls_after_failure_change_nothing_witness :
  let s0 := PwriteShim.new (Some VecSink.vec_write) (Some VecSink.vec_pwrite)
              None None in
  let w := VecSink.empty 2 0 0 in
  Ops.run_ops ([Ops.OpWrite [x01; x02]; Ops.OpWrite [x03]]
               ++ [Ops.OpWrite [x04]; Ops.OpPwrite [x05] 0]) s0 w
  = Ops.run_ops [Ops.OpWrite [x01; x02]; Ops.OpWrite [x03]] s0 w.
Proof.
  intros s0 w.
  apply (calls_after_failure_change_nothing
           [Ops.OpWrite [x01; x02]; Ops.OpWrite [x03]]
           [Ops.OpWrite [x04]; Ops.OpPwrite [x05] 0] s0 w);
    reflexivity.
Defined.

(** X3.  [seek_append_pos] moves the append position to the offset it is
    given (a [uint64_t]) whatever the latch is and whatever the seek
    callback answers, and later forward writes count from there: when the
    latch is clear after the writes and offset-writes that follow, the
    position is the offset plus the sizes of the forward writes, as a
    [uint64_t]. *)
Theorem seek_rebases_position {Sink : Type} (off : Z)
        (ops : list Ops.StreamOp)
        (s : PwriteShim.RustPwriteStream Sink) (w : World Sink) :
  let s1 := snd (fst (PwriteShim.seek_append_pos off s w)) in
  let w1 := snd (PwriteShim.seek_append_pos off s w) in
  0 <= off < 2 ^ 64 ->
  Ops.seek_free ops = true ->
  PwriteShim.current_pos s1 = off /\
  (PwriteShim.had_error (fst (Ops.run_ops ops s1 w1)) = false ->
   PwriteShim.current_pos (fst (Ops.run_ops ops s1 w1))
   = wrap64 (off + Ops.total_appended ops)).
Proof.
  intros s1 w1 Hoff Hfree.
  assert (Hpos : PwriteShim.pos_ s1 = off).
  { subst s1. unfold PwriteShim.seek_append_pos. simpl.
    destruct (PwriteShim.seek_cb_ s) as [cb|]; [|reflexivity].
    now destruct (call_seek cb off w). }
  split; [exact Hpos|]. intros Hclear.
  apply run_ops_pos; [exact Hfree | | exact Hclear].
  rewrite Hpos. symmetry. now apply wrap64_small.
Qed.

Lemma seek_rebases_position_witness :
  let s0 := PwriteShim.new (Some VecSink.vec_write) (Some VecSink.vec_pwrite)
              (Some VecSink.vec_seek) None in
  let w := VecSink.empty 8 1 0 in
  let s1 := snd (fst (PwriteShim.seek_append_pos 100 s0 w)) in
  let w1 := snd (PwriteShim.seek_append_pos 100 s0 w) in
  PwriteShim.current_pos
    (fst (Ops.run_ops [Ops.OpWrite [x01; x02; x03]] s1 w1))
  = wrap64 (100 + 3).
Proof.
  intros s0 w s1 w1.
  refine (proj2 (seek_rebases_position 100 [Ops.OpWrite [x01; x02; x03]]
                   s0 w _ eq_refl) eq_refl).
  lia.
Defined.

(** X4.  A stream of either class constructed with a null write callback
    never invokes anything for forward writes: the world stays as it was,
    the position stays 0, and the latch is set as soon as one write carries
    at least one byte, after which the destructor does not flush. *)
Theorem null_write_callback_latches {Sink : Type}
        (pwcb : option (rust_pwrite_cb Sink))
        (scb : option (rust_seek_cb Sink)) (fcb : option (rust_flush_cb Sink))
        (datas : list (list byte)) (w : World Sink) :
  let s' := fst (Ops.run_ops (map Ops.OpWrite datas)
                   (PwriteShim.new None pwcb scb fcb) w) in
  let w' := snd (Ops.run_ops (map Ops.OpWrite datas)
                   (PwriteShim.new None pwcb scb fcb) w) in
  let t' := fst (Ops.run_writes datas (BitcodeShim.new None fcb) w) in
  let v' := snd (Ops.run_writes datas (BitcodeShim.new None fcb) w) in
  (w' = w /\ PwriteShim.current_pos s' = 0 /\
   PwriteShim.had_error s' = existsb Forward.has_bytes datas) /\
  (v' = w /\ BitcodeShim.current_pos t' = 0 /\
   BitcodeShim.had_error t' = existsb Forward.has_bytes datas) /\
  (existsb Forward.has_bytes datas = true ->
   PwriteShim.destroy s' w' = (s', w) /\
   BitcodeShim.destroy t' v' = (t', w)).
Proof.
  intros s' w' t' v'.
  destruct (run_writes_as_fold datas (PwriteShim.new None pwcb scb fcb) w
              eq_refl) as (H1 & H2 & H3).
  destruct (raw_run_writes_null datas (BitcodeShim.new None fcb) w eq_refl)
    as (R1 & R2 & R3).
  fold s' in H2, H3. fold w' in H1. fold t' in R2, R3. fold v' in R1.
  simpl in H2, H3, R2, R3.
  split; [auto|]. split; [auto|]. intros Hsome.
  rewrite Hsome in H2, R2. rewrite H1, R1.
  split.
  - now apply PwriteFacts.destroy_latched.
  - now apply BitcodeFacts.raw_destroy_latched.
Qed.

Lemma null_write_callback_latches_witness :
  let t' := fst (Ops.run_writes [[]; [x01]]
                   (BitcodeShim.new None (Some VecSink.vec_flush))
                   (VecSink.empty 8 0 0)) in
  BitcodeShim.destroy t' (VecSink.empty 8 0 0) = (t', VecSink.empty 8 0 0).
Proof.
  intros t'.
  pose proof (null_write_callback_latches None None (Some VecSink.vec_flush)
                [[]; [x01]] (VecSink.empty 8 0 0)) as (_ & _ & H).
  exact (proj2 (H eq_refl)).
Defined.

(** X5.  For forward writes the two stream classes are the same machine:
    constructed with the same write and flush callbacks and given the same
    writes, a [RustRawOStream] and a [RustPwriteStream] end with the same
    position and latch, have made the same callback invocations on the same
    sink, and their destructors then do the same. *)
Theorem classes_agree_on_forward_writes {Sink : Type}
        (wcb : option (rust_write_cb Sink))
        (pwcb : option (rust_pwrite_cb Sink))
        (scb : option (rust_seek_cb Sink)) (fcb : option (rust_flush_cb Sink))
        (datas : list (list byte)) (w : World Sink) :
  let raw := Ops.run_writes datas (BitcodeShim.new wcb fcb) w in
  let pw := Ops.run_ops (map Ops.OpWrite datas)
              (PwriteShim.new wcb pwcb scb fcb) w in
  BitcodeShim.current_pos (fst raw) = PwriteShim.current_pos (fst pw) /\
  BitcodeShim.had_error (fst raw) = PwriteShim.had_error (fst pw) /\
  snd raw = snd pw /\
  snd (BitcodeShim.destroy (fst raw) (snd raw))
  = snd (PwriteShim.destroy (fst pw) (snd pw)) /\
  BitcodeShim.had_error (fst (BitcodeShim.destroy (fst raw) (snd raw)))
  = PwriteShim.had_error (fst (PwriteShim.destroy (fst pw) (snd pw))).
Proof.
  intros raw pw.
  destruct (run_writes_same_state datas (BitcodeShim.new wcb fcb)
              (PwriteShim.new wcb pwcb scb fcb) w) as [Hs Hw].
  { repeat split. }
  fold raw in Hs, Hw. fold pw in Hs, Hw.
  destruct Hs as (Hwc & Hf & Hp & He).
  split; [exact Hp|]. split; [exact He|]. split; [exact Hw|].
  unfold BitcodeShim.destroy, BitcodeShim.flush, PwriteShim.destroy,
    BitcodeShim.had_error, PwriteShim.had_error.
  rewrite Hw, He, Hf.
  destruct (PwriteShim.had_error_ (fst pw)) eqn:Hl; simpl;
    [split; [reflexivity | now rewrite He, Hl]|].
  destruct (PwriteShim.flush_cb_ (fst pw)) as [cb|];
    [|split; [reflexivity | simpl; now rewrite He, Hl]].
  destruct (call_flush cb (snd pw)) as [rc w1].
  destruct (negb (rc =? 0)); simpl;
    (split; [reflexivity | rewrite ?He, ?Hl; reflexivity]).
Qed.

(** * Further properties of the entry points *)

Lemma written_teardown {Sink : Type} latch
      (fcb : option (rust_flush_cb Sink)) (w : World Sink) :
  written (teardown latch fcb w) = 0.
Proof. unfold teardown. destruct latch; [reflexivity|]. now destruct fcb. Qed.

Lemma wrap64_range (z : Z) : 0 <= wrap64 z < 2 ^ 64.
Proof. unfold wrap64. apply Z.mod_pos_bound. lia. Qed.

(** X6.  What the position counts.  Whatever LLVM does with the stream it is
    given (any number of writes and offset-writes, in any order, possibly
    depending on the positions it reads back), and whether or not the sink
    refuses one of them, [current_pos()] at the end is the number of bytes
    the sink accepted through the write callback, as a [uint64_t]: bytes of
    a refused write, of offset-writes and of calls made after a failure are
    not counted. *)
Theorem position_counts_accepted_bytes {Sink R : Type}
        (p : PwriteShim.pwrite_prog R) (q : BitcodeShim.ostream_prog)
        (wf : rust_write_cb Sink) (pf : rust_pwrite_cb Sink)
        (scb : option (rust_seek_cb Sink)) (fcb : option (rust_flush_cb Sink))
        (w : World Sink) :
  let pw := PwriteShim.run_prog p (PwriteShim.new (Some wf) (Some pf) scb fcb)
              w in
  let raw := BitcodeShim.run_prog q (BitcodeShim.new (Some wf) fcb) w in
  (PwriteShim.current_pos (snd (fst pw))
   = wrap64 (written (events_since w (snd pw))) /\
   0 <= PwriteShim.current_pos (snd (fst pw)) < 2 ^ 64) /\
  (BitcodeShim.current_pos (fst raw)
   = wrap64 (written (events_since w (snd raw))) /\
   0 <= BitcodeShim.current_pos (fst raw) < 2 ^ 64).
Proof.
  intros pw raw. split.
  - assert (Hinit : pwrite_inv (PwriteShim.new (Some wf) (Some pf) scb fcb)
                      []).
    { split; [discriminate | split; [discriminate | ]].
      apply writing_phase_nil. }
    destruct (PwriteFacts.run_prog_step p _ w [] Hinit)
      as (new & Ht & (_ & _ & _ & _ & _ & Hpos) & _).
    fold pw in Ht, Hpos. simpl in Hpos.
    rewrite (events_since_app _ _ _ Ht). unfold PwriteShim.current_pos.
    rewrite Hpos. split; [reflexivity | apply wrap64_range].
  - assert (Hinit : raw_inv (BitcodeShim.new (Some wf) fcb) []).
    { split; [discriminate | split; [reflexivity | ]].
      apply writing_phase_nil. }
    destruct (BitcodeFacts.raw_run_prog_step q _ w [] Hinit)
      as (new & Ht & (_ & _ & _ & _ & _ & Hpos) & _).
    fold raw in Ht, Hpos. simpl in Hpos.
    rewrite (events_since_app _ _ _ Ht). unfold BitcodeShim.current_pos.
    rewrite Hpos. split; [reflexivity | apply wrap64_range].
Qed.

(** X7.  What the random-access entry point answers, on valid arguments.  It
    returns 1 when the target machine refuses the file type or a write or
    offset-write callback returned non-zero, and 0 otherwise.  The message
    slot tells the two failures apart: the cannot-emit text for a refusal
    (also when a callback failed before it), the sink text for a failed
    callback, null on success; a failed flush changes neither. *)
Theorem emit_outcome {Sink IR : Type} (malloc : nat -> bool)
        (tm : PwriteShim.TargetMachine IR) (m : PwriteShim.Module IR)
        (codegen : Z) (wf : rust_write_cb Sink) (pf : rust_pwrite_cb Sink)
        (scb : option (rust_seek_cb Sink)) (fcb : option (rust_flush_cb Sink))
        (msg : option (option string)) (w : World Sink) :
  let r := PwriteShim.bpf_linker_emit_to_pwrite_stream malloc (Some tm)
             (Some m) codegen (Some wf) (Some pf) scb fcb msg w in
  let refused := backend_refuses tm codegen (Some wf) (Some pf) scb fcb w in
  let failed := existsb failed_write (events_since w (PwriteShim.em_world r)) in
  PwriteShim.em_ret r = (if refused || failed then 1 else 0) /\
  PwriteShim.em_message r
  = PwriteShim.store_message msg
      (if refused
       then PwriteShim.dup_cstr malloc (Some PwriteShim.msg_cannot_emit)
       else if failed
            then PwriteShim.dup_cstr malloc (Some PwriteShim.msg_sink)
            else None).
Proof.
  intros r refused failed.
  destruct (emit_events malloc tm m codegen wf pf scb fcb msg w)
    as (body & s & w1 & Hphase & Hev & _ & Hr & Hm & _).
  fold r in Hev, Hr, Hm.
  destruct (flush_count_of_call _ _ _ fcb w1 Hphase) as (Hlatch & _).
  rewrite <- Hev in Hlatch. fold failed in Hlatch.
  unfold refused, backend_refuses. now rewrite Hlatch.
Qed.

(** X8.  What the two append-only entry points answer, on valid arguments:
    1 exactly when a write callback returned non-zero during the call, 0
    otherwise, whatever the flush callback returns. *)
Theorem stream_outcome {Sink Module : Type}
        (emit : Module -> BitcodeShim.ostream_prog) (m : Module)
        (wf : rust_write_cb Sink) (fcb : option (rust_flush_cb Sink))
        (w : World Sink) :
  let b := BitcodeShim.bpf_linker_write_bitcode_to_stream emit (Some m)
             (Some wf) fcb w in
  let p := BitcodeShim.bpf_linker_print_ir_to_stream emit (Some m)
             (Some wf) fcb w in
  BitcodeShim.sr_ret b
  = (if existsb failed_write (events_since w (BitcodeShim.sr_world b))
     then 1 else 0) /\
  BitcodeShim.sr_ret p
  = (if existsb failed_write (events_since w (BitcodeShim.sr_world p))
     then 1 else 0).
Proof.
  intros b p.
  assert (Hb : BitcodeShim.sr_ret b
               = (if existsb failed_write
                       (events_since w (BitcodeShim.sr_world b))
                  then 1 else 0)).
  { destruct (stream_events emit m wf fcb w)
      as (body & s & w1 & Hphase & Hev & Hr).
    fold b in Hev, Hr.
    destruct (flush_count_of_call _ _ _ fcb w1 Hphase) as (Hlatch & _).
    rewrite <- Hev in Hlatch. now rewrite Hlatch. }
  split; [exact Hb | exact Hb].
Qed.

(** X9.  Which callbacks an entry point can reach.  Whatever its arguments,
    the random-access entry point never invokes the reposition callback,
    and the two append-only entry points invoke nothing but the write and
    flush callbacks. *)
Theorem entry_points_never_seek {Sink IR Module : Type}
        (malloc : nat -> bool)
        (T : option (PwriteShim.TargetMachine IR))
        (M : option (PwriteShim.Module IR)) (codegen : Z)
        (emit : Module -> BitcodeShim.ostream_prog) (M' : option Module)
        (wcb : option (rust_write_cb Sink))
        (pwcb : option (rust_pwrite_cb Sink))
        (scb : option (rust_seek_cb Sink))
        (fcb : option (rust_flush_cb Sink))
        (msg : option (option string)) (w : World Sink) :
  let r := PwriteShim.bpf_linker_emit_to_pwrite_stream malloc T M codegen
             wcb pwcb scb fcb msg w in
  let b := BitcodeShim.bpf_linker_write_bitcode_to_stream emit M' wcb fcb w in
  let p := BitcodeShim.bpf_linker_print_ir_to_stream emit M' wcb fcb w in
  forallb (fun e => negb (is_seek e))
          (events_since w (PwriteShim.em_world r)) = true /\
  forallb (fun e => is_write e || is_flush e)
          (events_since w (BitcodeShim.sr_world b)) = true /\
  forallb (fun e => is_write e || is_flush e)
          (events_since w (BitcodeShim.sr_world p)) = true.
Proof.
  intros r b p.
  assert (Hnil : events_since w w = []).
  { apply events_since_app. now rewrite app_nil_r. }
  assert (Htail : forall latch (w1 : World Sink),
             forallb is_flush (teardown latch fcb w1) = true).
  { intros latch w1. unfold teardown. destruct latch; [reflexivity|].
    now destruct fcb. }
  assert (Hb : forallb (fun e => is_write e || is_flush e)
                 (events_since w (BitcodeShim.sr_world b)) = true).
  { subst b. destruct M' as [m'|], wcb as [wf|];
      try (simpl; now rewrite Hnil).
    destruct (BitcodeFacts.stream_valid emit m' wf fcb w)
      as (body & s & w1 & (_ & Hall & _) & Hc & Ht & Hw & _).
    assert (Hfcb : BitcodeShim.flush_cb_ s = fcb)
      by (unfold raw_callbacks in Hc; congruence).
    rewrite (events_since_app w _ (body ++ teardown
               (BitcodeShim.had_error_ s) fcb w1))
      by (rewrite Hw, BitcodeFacts.raw_destroy_trace, Ht, Hfcb;
          now rewrite app_assoc).
    rewrite forallb_app. apply andb_true_intro. split.
    - rewrite forallb_forall in *. intros e He. now rewrite (Hall e He).
    - specialize (Htail (BitcodeShim.had_error_ s) w1).
      rewrite forallb_forall in *. intros e He.
      rewrite (Htail e He). apply orb_true_r. }
  split; [|split; [exact Hb | exact Hb]].
  subst r. destruct T as [tm|], M as [m|], wcb as [wf|], pwcb as [pf|];
    try (unfold PwriteShim.bpf_linker_emit_to_pwrite_stream; simpl;
         now rewrite Hnil).
  destruct (emit_events malloc tm m codegen wf pf scb fcb msg w)
    as (body & s & w1 & (Hwp & _) & Hev & _).
  rewrite Hev, forallb_app. apply andb_true_intro. split.
  - rewrite forallb_forall in *. intros e He. specialize (Hwp e He).
    now destruct e.
  - specialize (Htail (PwriteShim.had_error_ s) w1).
    rewrite forallb_forall in *. intros e He. specialize (Htail e He).
    now destruct e.
Qed.

(** X10.  After a refusal the pipeline is not run.  When the target machine
    refuses the file type, the whole result of the call (returned value,
    message, module, callback invocations, sink) is the same for any other
    target machine that has the same data layout and answers
    [addPassesToEmitFile] the same way, whatever its pipeline would do. *)
Theorem refusal_skips_the_pipeline {Sink IR : Type} (malloc : nat -> bool)
        (tm tm' : PwriteShim.TargetMachine IR) (m : PwriteShim.Module IR)
        (codegen : Z) (wf : rust_write_cb Sink) (pf : rust_pwrite_cb Sink)
        (scb : option (rust_seek_cb Sink)) (fcb : option (rust_flush_cb Sink))
        (msg : option (option string)) (w : World Sink) :
  PwriteShim.createDataLayout tm' = PwriteShim.createDataLayout tm ->
  (forall ft, PwriteShim.addPassesToEmitFile tm' ft
              = PwriteShim.addPassesToEmitFile tm ft) ->
  backend_refuses tm codegen (Some wf) (Some pf) scb fcb w = true ->
  PwriteShim.bpf_linker_emit_to_pwrite_stream malloc (Some tm') (Some m)
    codegen (Some wf) (Some pf) scb fcb msg w
  = PwriteShim.bpf_linker_emit_to_pwrite_stream malloc (Some tm) (Some m)
      codegen (Some wf) (Some pf) scb fcb msg w.
Proof.
  intros Hdl Hadd Href.
  unfold backend_refuses, setup, file_type in Href.
  unfold PwriteShim.bpf_linker_emit_to_pwrite_stream.
  rewrite Hdl, Hadd.
  destruct (PwriteShim.run_prog _ _ w) as [[refused s1] w1].
  simpl in Href. subst refused. reflexivity.
Qed.

Lemma refusal_skips_the_pipeline_witness :
  let noisy := PwriteShim.mkTargetMachine VecSink.layout
                 (fun _ => PwriteShim.PRet true)
                 (fun _ m => PwriteShim.PWrite [x01] (PwriteShim.PRet m)) in
  PwriteShim.bpf_linker_emit_to_pwrite_stream VecSink.always_fits
    (Some noisy) (Some VecSink.a_module) PwriteShim.LLVMObjectFile
    (Some VecSink.vec_write) (Some VecSink.vec_pwrite) None
    (Some VecSink.vec_flush) (Some None) (VecSink.empty 8 0 0)
  = PwriteShim.bpf_linker_emit_to_pwrite_stream VecSink.always_fits
      (Some VecSink.refusing) (Some VecSink.a_module)
      PwriteShim.LLVMObjectFile
      (Some VecSink.vec_write) (Some VecSink.vec_pwrite) None
      (Some VecSink.vec_flush) (Some None) (VecSink.empty 8 0 0).
Proof.
  intros noisy.
  apply (refusal_skips_the_pipeline VecSink.always_fits VecSink.refusing
           noisy VecSink.a_module PwriteShim.LLVMObjectFile VecSink.vec_write
           VecSink.vec_pwrite None (Some VecSink.vec_flush) (Some None)
           (VecSink.empty 8 0 0)).
  - reflexivity.
  - intros ft. reflexivity.
  - reflexivity.
Defined.



(** X12.  The returned value is authoritative; the message is a courtesy.
    The entry point returns 0 or 1.  Neither the returned value nor what
    happens to the sink depends on whether [malloc] serves the message; and
    when [malloc] always serves and the caller passed a slot, every call
    that returns 1 leaves a message in it. *)
Theorem failure_has_message_when_malloc_serves {Sink IR : Type}
        (malloc malloc' : nat -> bool)
        (T : option (PwriteShim.TargetMachine IR))
        (M : option (PwriteShim.Module IR)) (codegen : Z)
        (wcb : option (rust_write_cb Sink))
        (pwcb : option (rust_pwrite_cb Sink))
        (scb : option (rust_seek_cb Sink))
        (fcb : option (rust_flush_cb Sink))
        (old : option string) (w : World Sink) :
  let r := PwriteShim.bpf_linker_emit_to_pwrite_stream malloc T M codegen
             wcb pwcb scb fcb (Some old) w in
  let r' := PwriteShim.bpf_linker_emit_to_pwrite_stream malloc' T M codegen
              wcb pwcb scb fcb (Some old) w in
  (PwriteShim.em_ret r = 0 \/ PwriteShim.em_ret r = 1) /\
  (PwriteShim.em_ret r' = PwriteShim.em_ret r /\
   PwriteShim.em_world r' = PwriteShim.em_world r /\
   PwriteShim.em_module r' = PwriteShim.em_module r) /\
  ((forall n, malloc n = true) ->
   PwriteShim.em_ret r = 1 ->
   exists text, PwriteShim.em_message r = Some (Some text)).
Proof.
  intros r r'. subst r r'.
  unfold PwriteShim.bpf_linker_emit_to_pwrite_stream.
  destruct T as [tm|], M as [m|], wcb as [wf|], pwcb as [pf|];
    try (simpl; split; [now right | split; [auto|]];
         intros Hserve _; rewrite Hserve; simpl; eauto).
  destruct (PwriteShim.run_prog _ _ w) as [[refused s1] w1].
  destruct refused.
  - destruct (PwriteShim.destroy s1 w1) as [s2 w2]. simpl.
    split; [now right | split; [auto|]].
    intros Hserve _. rewrite Hserve. simpl. eauto.
  - destruct (PwriteShim.run_prog _ s1 w1) as [[m2 s2] w2]. simpl.
    destruct (PwriteShim.had_error s2);
      destruct (PwriteShim.destroy s2 w2) as [s3 w3]; simpl.
    + split; [now right | split; [auto|]].
      intros Hserve _. rewrite Hserve. simpl. eauto.
    + split; [now left | split; [auto|]]. intros _ H. discriminate H.
Qed.

Lemma failure_has_message_when_malloc_serves_witness :
  let r := PwriteShim.bpf_linker_emit_to_pwrite_stream VecSink.always_fits
             (Some VecSink.emitting) (Some VecSink.a_module)
             PwriteShim.LLVMObjectFile (Some VecSink.vec_write)
             (Some VecSink.vec_pwrite) None (Some VecSink.vec_flush)
             (Some None) (VecSink.empty 4 0 0) in
  exists text, PwriteShim.em_message r = Some (Some text).
Proof.
  intros r.
  apply (proj2 (proj2
           (failure_has_message_when_malloc_serves VecSink.always_fits
              (fun _ => false) (Some VecSink.emitting)
              (Some VecSink.a_module) PwriteShim.LLVMObjectFile
              (Some VecSink.vec_write) (Some VecSink.vec_pwrite) None
              (Some VecSink.vec_flush) None (VecSink.empty 4 0 0)))).
  - intros n. reflexivity.
  - reflexivity.
Defined.
